(** * S3 file sync monitor ([module3/scripts/s3_file_monitor.py])

    A shallow embedding of the watchdog handler [S3FileHandler], of
    [create_s3_client], [validate_bucket] and [main], together with the
    properties of the upload path that the design document states.

    Python strings are [string]; file contents are [list byte]; the local
    file system and the bucket contents are finite maps; exceptions,
    logging and the calls made to S3 are threaded through a small
    state-and-exception monad. *)

From Stdlib Require Import Strings.Ascii Strings.String Strings.Byte Bool Arith Lia.
From stdpp Require Import base option list gmap strings.

(** ** Python string and [pathlib] primitives used by the script *)

Module Pathlib.

Definition is_sep (c : ascii) : bool := Ascii.eqb c "/"%char.
Definition is_dot (c : ascii) : bool := Ascii.eqb c "."%char.

(** [s.split('/')]: the pieces between separators, empty pieces kept. *)
Fixpoint split_sep (s : string) : list string :=
  match s with
  | EmptyString => [EmptyString]
  | String c r =>
      if is_sep c then EmptyString :: split_sep r
      else match split_sep r with
           | [] => [String c EmptyString]
           | h :: t => String c h :: t
           end
  end.

(** A component survives [PurePosixPath] parsing unless it is empty or
    a single dot. *)
Definition keeps_part (s : string) : bool :=
  negb (String.eqb s "") && negb (String.eqb s ".").

(** The parts of [PurePosixPath(p)] after the root. *)
Definition parts (p : string) : list string :=
  List.filter keeps_part (split_sep p).

(** [Path(p).name]: the final component, [''] when there is none. *)
Definition name (p : string) : string := List.last (parts p) "".

(** [s.rfind('.')], with [None] for [-1]. *)
Fixpoint rfind_dot (s : string) : option nat :=
  match s with
  | EmptyString => None
  | String c r =>
      match rfind_dot r with
      | Some i => Some (S i)
      | None => if is_dot c then Some 0 else None
      end
  end.

(** [s[i:]] *)
Fixpoint drop_str (i : nat) (s : string) : string :=
  match i, s with
  | 0, _ => s
  | S _, EmptyString => EmptyString
  | S j, String _ r => drop_str j r
  end.

(** [Path(p).suffix], as [pathlib] defines it up to Python 3.13:
    [i = name.rfind('.'); name[i:] if 0 < i < len(name) - 1 else ''].
    (Python 3.14 takes [os.path.splitext] instead, which differs on a name
    that ends in a dot and on a name with nothing but dots before its last
    dot.) *)
Definition suffix (p : string) : string :=
  let nm := name p in
  match rfind_dot nm with
  | Some i =>
      if (0 <? i) && (i <? String.length nm - 1) then drop_str i nm else ""
  | None => ""
  end.

(** [str.lower] on one character: the letters [A]..[Z] move to
    [a]..[z].  Characters outside ASCII are left as they are; no lowercase
    form of such a character spells one of the extensions in the table
    below, so the table lookup is unaffected. *)
Definition lower_ascii (c : ascii) : ascii :=
  let n := nat_of_ascii c in
  if (65 <=? n) && (n <=? 90) then ascii_of_nat (n + 32) else c.

Fixpoint lower (s : string) : string :=
  match s with
  | EmptyString => EmptyString
  | String c r => String (lower_ascii c) (lower r)
  end.

(** [s.rstrip('/')] *)
Fixpoint rstrip_sep (s : string) : string :=
  match s with
  | EmptyString => EmptyString
  | String c r =>
      match rstrip_sep r with
      | EmptyString => if is_sep c then EmptyString else String c EmptyString
      | r' => String c r'
      end
  end.

(** No character of the string satisfies [f]. *)
Fixpoint no_char (f : ascii -> bool) (s : string) : bool :=
  match s with
  | EmptyString => true
  | String c r => negb (f c) && no_char f r
  end.

(** The string is made of dots only. *)
Definition only_dots (s : string) : bool := no_char (fun c => negb (is_dot c)) s.

End Pathlib.

(** ** [S3FileHandler._get_content_type] *)

Definition content_types : list (string * string) :=
  [ (".txt", "text/plain");
    (".json", "application/json");
    (".xml", "application/xml");
    (".html", "text/html");
    (".css", "text/css");
    (".js", "application/javascript");
    (".jpg", "image/jpeg");
    (".jpeg", "image/jpeg");
    (".png", "image/png");
    (".gif", "image/gif");
    (".pdf", "application/pdf");
    (".doc", "application/msword");
    (".docx", "application/vnd.openxmlformats-officedocument.wordprocessingml.document");
    (".xls", "application/vnd.ms-excel");
    (".xlsx", "application/vnd.openxmlformats-officedocument.spreadsheetml.sheet");
    (".zip", "application/zip");
    (".tar", "application/x-tar");
    (".gz", "application/gzip") ].

(** [d.get(k, default)] for a dict written as a literal. *)
Fixpoint dict_get (d : list (string * string)) (k default : string) : string :=
  match d with
  | [] => default
  | (k', v) :: rest => if String.eqb k' k then v else dict_get rest k default
  end.

Definition _get_content_type (file_path : string) : string :=
  let extension := Pathlib.lower (Pathlib.suffix file_path) in
  dict_get content_types extension "application/octet-stream".

(** ** Exceptions, log records and the calls made to S3 *)

(** The exceptions the script can meet.  [SystemExit] (raised by
    [sys.exit]) and [KeyboardInterrupt] derive from [BaseException] only,
    so an [except Exception] clause lets them through. *)
Inductive exn :=
| ClientError (code : string)       (* botocore: e.response['Error']['Code'] *)
| NoCredentialsError
| EndpointConnectionError           (* botocore: the network is unreachable *)
| FileNotFoundError
| IsADirectoryError
| IndexError
| OtherError (what : string)        (* any other subclass of Exception *)
| SystemExit (code : nat)
| KeyboardInterrupt.

Definition is_Exception (e : exn) : bool :=
  match e with
  | SystemExit _ | KeyboardInterrupt => false
  | _ => true
  end.

Inductive level := INFO | ERROR.

(** One constructor per format string passed to [logger]; the arguments
    are the values interpolated into it ([str(e)] as [e], the absolute form
    of the watch path as the path, [s3_prefix or '(root)'] as the
    prefix). *)
Inductive message :=
| MsgHandlerInit (bucket_name s3_prefix : string)
| MsgFileEvent (event_type file_name : string) (file_size : nat)
| MsgProcessingError (file_path : string) (e : exn)
| MsgUploaded (file_name : string)
| MsgUrl (s3_url : string)
| MsgNoSuchBucket (bucket_name : string)
| MsgAccessDenied (bucket_name : string)
| MsgUploadError (e : exn)
| MsgFileNotFound (local_path : string)
| MsgUnexpectedUploadError (file_name : string) (e : exn)
| MsgConnectionOk
| MsgNoCredentials
| MsgCredentialsHint (line : nat)
| MsgClientFailed (e : exn)
| MsgBucketOk (bucket_name : string)
| MsgBucketError (e : exn)
| MsgWatchPathMissing (watch_path : string)
| MsgWatchPathNotDir (watch_path : string)
| MsgMonitoringFolder (watch_path : string)
| MsgBucket (bucket_name : string)
| MsgPrefix (s3_prefix : string)
| MsgStarting
| MsgStopping
| MsgStopped
| MsgCredentialsRequired
| MsgUnexpected (e : exn).

(** What [print] writes. *)
Inductive console_line :=
| OutBanner
| OutUsage
| OutMonitoringStarted (watch_path : string).

Record put_request := {
  Bucket : string;
  Key : string;
  Body : list byte;
  ContentType : string }.

Inductive s3_call :=
| ListBuckets
| HeadBucket (bucket : string)
| PutObject (r : put_request).

(** The [put_object] submissions among the calls, oldest first. *)
Fixpoint puts (cs : list s3_call) : list put_request :=
  match cs with
  | [] => []
  | PutObject r :: rest => r :: puts rest
  | _ :: rest => puts rest
  end.

(** The boto3 client, seen from the script: what a call of one of its
    methods gives back, once the client is done with it (its own retries
    included, see [boto3_client] below).
    [list_buckets] gives the names of the buckets the account owns, in the
    order S3 lists them; [head_bucket] and [put_object] succeed ([None]) or
    raise.  The answer to a [put_object] may depend on the calls received
    before it. *)
Record s3_client := {
  list_buckets_response : exn + list string;
  head_bucket_response : string -> option exn;
  put_object_response : list s3_call -> put_request -> option exn }.

(** ** The world the script runs in *)

Inductive node :=
| RegularFile (content : list byte)
| Directory (st_size : nat).

Record s3_object := { obj_body : list byte; obj_content_type : string }.

(** The state of a [S3FileHandler] object. *)
Record S3FileHandler := {
  client : s3_client;
  bucket_name : string;
  s3_prefix : string }.

(** A watch registered with [observer.schedule]. *)
Record watch := { watch_handler : S3FileHandler; watch_path : string; recursive : bool }.

(** [fs_now] is the file system as the next access sees it.  Other
    processes change files while the monitor runs: [fs_later] lists the
    states seen by the accesses that follow, and once it is used up the
    file system stays as it is.  [objects] is the content of S3, by bucket
    and key; [calls] the requests the script has sent, oldest first. *)
Record world := {
  fs_now : gmap string node;
  fs_later : list (gmap string node);
  objects : gmap (string * string) s3_object;
  calls : list s3_call;
  log : list (level * message);
  stdout : list console_line;
  watches : list watch;
  observer_running : bool }.

Definition set_fs (f : gmap string node) (l : list (gmap string node)) (w : world) : world :=
  {| fs_now := f; fs_later := l; objects := objects w; calls := calls w;
     log := log w; stdout := stdout w; watches := watches w;
     observer_running := observer_running w |}.

Definition set_s3 (o : gmap (string * string) s3_object) (c : list s3_call) (w : world) : world :=
  {| fs_now := fs_now w; fs_later := fs_later w; objects := o; calls := c;
     log := log w; stdout := stdout w; watches := watches w;
     observer_running := observer_running w |}.

Definition set_log (l : list (level * message)) (w : world) : world :=
  {| fs_now := fs_now w; fs_later := fs_later w; objects := objects w; calls := calls w;
     log := l; stdout := stdout w; watches := watches w;
     observer_running := observer_running w |}.

Definition set_stdout (l : list console_line) (w : world) : world :=
  {| fs_now := fs_now w; fs_later := fs_later w; objects := objects w; calls := calls w;
     log := log w; stdout := l; watches := watches w;
     observer_running := observer_running w |}.

Definition set_observer (ws : list watch) (r : bool) (w : world) : world :=
  {| fs_now := fs_now w; fs_later := fs_later w; objects := objects w; calls := calls w;
     log := log w; stdout := stdout w; watches := ws; observer_running := r |}.

(** ** Statements that change the world and may raise *)

Inductive result (A : Type) :=
| Returns (a : A)
| Raises (e : exn).
Arguments Returns {A} a.
Arguments Raises {A} e.

Definition M (A : Type) : Type := world -> result A * world.

#[global] Instance M_ret : MRet M := fun A a w => (Returns a, w).

#[global] Instance M_bind : MBind M := fun A B f m w =>
  match m w with
  | (Returns a, w') => f a w'
  | (Raises e, w') => (Raises e, w')
  end.

Definition raise {A} (e : exn) : M A := fun w => (Raises e, w).

(** [try: body  except ...: handler].  [handler e] is [None] when no
    clause matches [e], which then goes on to the caller. *)
Definition try_except {A} (body : M A) (handler : exn -> option (M A)) : M A :=
  fun w =>
    match body w with
    | (Returns a, w') => (Returns a, w')
    | (Raises e, w') =>
        match handler e with
        | Some h => h w'
        | None => (Raises e, w')
        end
    end.

(** [except Exception as e: h e] *)
Definition except_Exception {A} (h : exn -> M A) (e : exn) : option (M A) :=
  if is_Exception e then Some (h e) else None.

Definition logger_info (m : message) : M unit :=
  fun w => (Returns (), set_log (log w ++ [(INFO, m)]) w).

Definition logger_error (m : message) : M unit :=
  fun w => (Returns (), set_log (log w ++ [(ERROR, m)]) w).

Definition print (l : console_line) : M unit :=
  fun w => (Returns (), set_stdout (stdout w ++ [l]) w).

(** Every access to the file system reads [fs_now] and then lets the
    other processes move on. *)
Definition fs_access : M (gmap string node) :=
  fun w =>
    match fs_later w with
    | [] => (Returns (fs_now w), w)
    | f :: l => (Returns (fs_now w), set_fs f l w)
    end.

(** [Path(p).stat().st_size].  The file system is keyed by the spelling
    of a path: [fs !! p] is what the operating system resolves [p] to. *)
Definition stat_size (p : string) : M nat :=
  f ← fs_access;
  match f !! p with
  | Some (RegularFile content) => mret (length content)
  | Some (Directory st_size) => mret st_size
  | None => raise FileNotFoundError
  end.

(** [open(p, 'rb')], and what the client then reads from the file object. *)
Definition open_rb (p : string) : M (list byte) :=
  f ← fs_access;
  match f !! p with
  | Some (RegularFile content) => mret content
  | Some (Directory _) => raise IsADirectoryError
  | None => raise FileNotFoundError
  end.

Definition os_path_exists (p : string) : M bool :=
  f ← fs_access;
  mret (bool_decide (is_Some (f !! p))).

Definition os_path_isdir (p : string) : M bool :=
  f ← fs_access;
  mret (match f !! p with Some (Directory _) => true | _ => false end).

(** [client.put_object(Bucket=, Key=, Body=, ContentType=)], one call of
    the script: [calls] records the call, and the call returns or raises as
    the client reports; an accepted request replaces whatever the bucket
    held under that key. *)
Definition put_object (client : s3_client) (r : put_request) : M unit :=
  fun w =>
    match put_object_response client (calls w) r with
    | None =>
        (Returns (),
         set_s3 (<[(Bucket r, Key r) :=
                    {| obj_body := Body r; obj_content_type := ContentType r |}]> (objects w))
                (calls w ++ [PutObject r]) w)
    | Some e => (Raises e, set_s3 (objects w) (calls w ++ [PutObject r]) w)
    end.

Definition head_bucket (client : s3_client) (bucket : string) : M unit :=
  fun w =>
    let w' := set_s3 (objects w) (calls w ++ [HeadBucket bucket]) w in
    match head_bucket_response client bucket with
    | None => (Returns (), w')
    | Some e => (Raises e, w')
    end.

(** [client.list_buckets()['Buckets']], as the list of the ['Name']s. *)
Definition list_buckets (client : s3_client) : M (list string) :=
  fun w =>
    let w' := set_s3 (objects w) (calls w ++ [ListBuckets]) w in
    match list_buckets_response client with
    | inr names => (Returns names, w')
    | inl e => (Raises e, w')
    end.

(** ** [class S3FileHandler(FileSystemEventHandler)] *)

(** [s3_prefix.rstrip('/') + '/' if s3_prefix else ""] *)
Definition normalize_prefix (s3_prefix : string) : string :=
  if String.eqb s3_prefix "" then "" else Pathlib.rstrip_sep s3_prefix +:+ "/".

Definition S3FileHandler__init__ (s3 : s3_client) (bucket_name s3_prefix : string)
  : M S3FileHandler :=
  let self := {| client := s3; bucket_name := bucket_name;
                 s3_prefix := normalize_prefix s3_prefix |} in
  logger_info (MsgHandlerInit bucket_name (normalize_prefix s3_prefix));;
  mret self.

(** The [except] clauses of [_upload_to_s3], in the order written. *)
Definition _upload_to_s3_except (self : S3FileHandler) (local_path file_name : string)
    (e : exn) : option (M unit) :=
  match e with
  | ClientError error_code =>
      Some (if String.eqb error_code "NoSuchBucket"
            then logger_error (MsgNoSuchBucket (bucket_name self))
            else if String.eqb error_code "AccessDenied"
            then logger_error (MsgAccessDenied (bucket_name self))
            else logger_error (MsgUploadError e))
  | FileNotFoundError => Some (logger_error (MsgFileNotFound local_path))
  | _ => except_Exception
           (fun e => logger_error (MsgUnexpectedUploadError file_name e)) e
  end.

Definition _upload_to_s3 (self : S3FileHandler) (local_path s3_key file_name : string)
  : M unit :=
  try_except
    (let content_type := _get_content_type local_path in
     file_data ← open_rb local_path;
     put_object (client self)
       {| Bucket := bucket_name self; Key := s3_key;
          Body := file_data; ContentType := content_type |};;
     let s3_url := "https://" +:+ bucket_name self +:+ ".s3.amazonaws.com/" +:+ s3_key in
     logger_info (MsgUploaded file_name);;
     logger_info (MsgUrl s3_url))
    (_upload_to_s3_except self local_path file_name).

(** The key under which a local path is stored: lines 92 to 97. *)
Definition s3_key_of (self : S3FileHandler) (file_path : string) : string :=
  s3_prefix self +:+ Pathlib.name file_path.

Definition _handle_file_event (self : S3FileHandler) (file_path event_type : string)
  : M unit :=
  try_except
    (let file_name := Pathlib.name file_path in
     file_size ← stat_size file_path;
     let s3_key := s3_prefix self +:+ file_name in
     logger_info (MsgFileEvent event_type file_name file_size);;
     _upload_to_s3 self file_path s3_key file_name)
    (except_Exception (fun e => logger_error (MsgProcessingError file_path e))).

(** A watchdog event, as far as the handler looks at it. *)
Record event := { src_path : string; is_directory : bool }.

Definition on_created (self : S3FileHandler) (ev : event) : M unit :=
  if negb (is_directory ev) then _handle_file_event self (src_path ev) "created"
  else mret ().

Definition on_modified (self : S3FileHandler) (ev : event) : M unit :=
  if negb (is_directory ev) then _handle_file_event self (src_path ev) "modified"
  else mret ().

(** [FileSystemEventHandler.dispatch]: the hook for the event's kind is
    called; the class leaves [on_deleted] and [on_moved] as inherited, and
    those do nothing. *)
Inductive fs_event :=
| Created (ev : event)
| Modified (ev : event)
| Deleted (ev : event)
| Moved (ev : event).

Definition dispatch (self : S3FileHandler) (fe : fs_event) : M unit :=
  match fe with
  | Created ev => on_created self ev
  | Modified ev => on_modified self ev
  | Deleted _ | Moved _ => mret ()
  end.

(** The observer thread hands the events to the handler one at a time. *)
Fixpoint run_events (self : S3FileHandler) (evs : list fs_event) : M unit :=
  match evs with
  | [] => mret ()
  | fe :: rest => dispatch self fe;; run_events self rest
  end.

(** ** [create_s3_client], [validate_bucket] *)

(** [boto3.client('s3')] builds the client for the account of the
    environment; [aws] stands for that account. *)
Definition create_s3_client (aws : s3_client) : M s3_client :=
  try_except
    (let s3 := aws in
     buckets ← list_buckets s3;
     first ← match buckets with
             | [] => raise IndexError
             | b :: _ => mret b
             end;
     head_bucket s3 first;;
     logger_info MsgConnectionOk;;
     mret s3)
    (fun e =>
       match e with
       | NoCredentialsError =>
           Some (logger_error MsgNoCredentials;;
                 logger_error (MsgCredentialsHint 0);;
                 logger_error (MsgCredentialsHint 1);;
                 logger_error (MsgCredentialsHint 2);;
                 logger_error (MsgCredentialsHint 3);;
                 raise e)
       | _ => except_Exception
                (fun e => logger_error (MsgClientFailed e);; raise e) e
       end).

Definition validate_bucket (s3 : s3_client) (bucket_name : string) : M bool :=
  try_except
    (head_bucket s3 bucket_name;;
     logger_info (MsgBucketOk bucket_name);;
     mret true)
    (fun e =>
       match e with
       | ClientError error_code =>
           Some ((if String.eqb error_code "NoSuchBucket"
                  then logger_error (MsgNoSuchBucket bucket_name)
                  else if String.eqb error_code "AccessDenied"
                  then logger_error (MsgAccessDenied bucket_name)
                  else logger_error (MsgBucketError e));;
                 mret false)
       | _ => None
       end).

(** ** [main] *)

Definition sys_exit {A} (code : nat) : M A := raise (SystemExit code).

Definition observer_schedule (self : S3FileHandler) (path : string) (rec : bool) : M unit :=
  fun w => (Returns (),
            set_observer (watches w ++ [{| watch_handler := self;
                                           watch_path := path; recursive := rec |}])
                         (observer_running w) w).

Definition observer_start : M unit :=
  fun w => (Returns (), set_observer (watches w) true w).

Definition observer_stop : M unit :=
  fun w => (Returns (), set_observer (watches w) false w).

(** [while True: time.sleep(1)]: the main thread sleeps while the observer
    thread serves [session], the events that arrive before Ctrl+C.  The
    handler returns from every event it is given (shown below), so the two
    threads are run here as one sequence. *)
Definition sleep_until_interrupt (self : S3FileHandler) (session : list fs_event)
  : M unit :=
  run_events self session;; raise KeyboardInterrupt.

(** [argv] is [sys.argv], the script name first. *)
Definition main (aws : s3_client) (argv : list string) (session : list fs_event)
  : M unit :=
  print OutBanner;;
  match argv with
  | _ :: watch_path :: bucket_name :: rest =>
      let s3_prefix := match rest with p :: _ => p | [] => "" end in
      exists_ ← os_path_exists watch_path;
      (if negb exists_
       then logger_error (MsgWatchPathMissing watch_path);; sys_exit 1
       else mret ());;
      isdir ← os_path_isdir watch_path;
      (if negb isdir
       then logger_error (MsgWatchPathNotDir watch_path);; sys_exit 1
       else mret ());;
      logger_info (MsgMonitoringFolder watch_path);;
      logger_info (MsgBucket bucket_name);;
      logger_info (MsgPrefix s3_prefix);;
      try_except
        (s3 ← create_s3_client aws;
         ok ← validate_bucket s3 bucket_name;
         (if negb ok then sys_exit 1 else mret ());;
         event_handler ← S3FileHandler__init__ s3 bucket_name s3_prefix;
         observer_schedule event_handler watch_path true;;
         logger_info MsgStarting;;
         print (OutMonitoringStarted watch_path);;
         observer_start;;
         try_except
           (sleep_until_interrupt event_handler session)
           (fun e =>
              match e with
              | KeyboardInterrupt =>
                  Some (logger_info MsgStopping;;
                        observer_stop;;
                        logger_info MsgStopped)
              | _ => None
              end))
        (fun e =>
           match e with
           | NoCredentialsError =>
               Some (logger_error MsgCredentialsRequired;; sys_exit 1)
           | _ => except_Exception
                    (fun e => logger_error (MsgUnexpected e);; sys_exit 1) e
           end)
  | _ => print OutUsage;; sys_exit 1
  end.

(** The status the interpreter exits with after [main()]: 0 when it
    returns, the argument of [sys.exit], 130 for a Ctrl+C that nothing
    caught, 1 for any other exception that nothing caught. *)
Definition exit_code (r : result unit) : nat :=
  match r with
  | Returns _ => 0
  | Raises (SystemExit code) => code
  | Raises KeyboardInterrupt => 130
  | Raises _ => 1
  end.

Definition initial_world (f : gmap string node) (later : list (gmap string node)) : world :=
  {| fs_now := f; fs_later := later; objects := ∅; calls := []; log := [];
     stdout := []; watches := []; observer_running := false |}.

(** ** Vocabulary of the statements *)

(** The world after one access to the file system. *)
Definition advance (w : world) : world :=
  match fs_later w with
  | [] => w
  | f :: l => set_fs f l w
  end.

(** The file system as the access after [k] others sees it. *)
Fixpoint snapshot (k : nat) (now : gmap string node) (later : list (gmap string node))
  : gmap string node :=
  match k, later with
  | 0, _ => now
  | S _, [] => now
  | S k', f :: l => snapshot k' f l
  end.

Definition fs_seen (k : nat) (w : world) : gmap string node :=
  snapshot k (fs_now w) (fs_later w).

(** The bytes of [p] at that access, when [p] is a regular file then. *)
Definition file_seen (k : nat) (w : world) (p : string) : option (list byte) :=
  match fs_seen k w !! p with
  | Some (RegularFile content) => Some content
  | _ => None
  end.

Definition st_size_of (n : node) : nat :=
  match n with
  | RegularFile content => length content
  | Directory st_size => st_size
  end.

(** The request [_handle_file_event] submits for [file_path] when it reads
    [body] from it. *)
Definition upload_request (self : S3FileHandler) (file_path : string) (body : list byte)
  : put_request :=
  {| Bucket := bucket_name self; Key := s3_key_of self file_path;
     Body := body; ContentType := _get_content_type file_path |}.

Definition upload_url (self : S3FileHandler) (file_path : string) : string :=
  "https://" +:+ bucket_name self +:+ ".s3.amazonaws.com/" +:+ s3_key_of self file_path.

(** The world once [_handle_file_event] has read the size of [p], logged
    the event and opened the file. *)
Definition after_stat (p ty : string) (n : node) (w : world) : world :=
  set_log (log w ++ [(INFO, MsgFileEvent ty (Pathlib.name p) (st_size_of n))])
          (advance (advance w)).

(** The calls a statement adds to those already made. *)
Definition submitted_by {A} (m : M A) (w : world) : list s3_call :=
  drop (length (calls w)) (calls (m w).2).

(** ["created"] or ["modified"], as the hook passes it on. *)
Definition event_type_of (fe : fs_event) : string :=
  match fe with
  | Created _ => "created"
  | Modified _ => "modified"
  | Deleted _ => "deleted"
  | Moved _ => "moved"
  end.

Definition errors (l : list (level * message)) : list message :=
  omap (fun r => match r with (ERROR, m) => Some m | _ => None end) l.

(** A create or modify event for the regular file [p]. *)
Definition file_event_on (p : string) (fe : fs_event) : Prop :=
  match fe with
  | Created ev | Modified ev => src_path ev = p ∧ is_directory ev = false
  | _ => False
  end.

(** A create or modify event for a directory. *)
Definition directory_event (fe : fs_event) : Prop :=
  match fe with
  | Created ev | Modified ev => is_directory ev = true
  | _ => False
  end.

(** The service raises nothing but subclasses of [Exception], as boto3
    does. *)
Definition raises_only_Exceptions (s3 : s3_client) : Prop :=
  ∀ history r e, put_object_response s3 history r = Some e → is_Exception e = true.

(** The failure classes of the design document.  Transient: a network
    error, throttling, or a 5xx answer of the service.  Permanent: access
    denied or a missing bucket.  The script itself tells apart only the
    two permanent codes, for the wording of its log record. *)
Definition transient_codes : list string :=
  ["Throttling"; "ThrottlingException"; "SlowDown"; "RequestTimeout";
   "RequestLimitExceeded"; "InternalError"; "ServiceUnavailable"; "500"; "503"].

Definition transient (e : exn) : bool :=
  match e with
  | EndpointConnectionError => true
  | ClientError code => bool_decide (code ∈ transient_codes)
  | _ => false
  end.

Definition permanent (e : exn) : bool :=
  match e with
  | ClientError code => String.eqb code "AccessDenied" || String.eqb code "NoSuchBucket"
  | _ => false
  end.

(** ** The scenarios of the design document *)

Definition bytes (s : string) : list byte := String.list_byte_of_string s.

(** A service that accepts every request, and one that answers every
    [put_object] with the same exception. *)
Definition accepting : s3_client :=
  {| list_buckets_response := inr ["bucket"];
     head_bucket_response := fun _ => None;
     put_object_response := fun _ _ => None |}.

Definition refusing (e : exn) : s3_client :=
  {| list_buckets_response := inr ["bucket"];
     head_bucket_response := fun _ => None;
     put_object_response := fun _ _ => Some e |}.

(** The account owns no bucket; the bucket named on the command line
    belongs to someone else and is open to the caller. *)
Definition no_buckets_of_its_own : s3_client :=
  {| list_buckets_response := inr [];
     head_bucket_response := fun _ => None;
     put_object_response := fun _ _ => None |}.

(** The handler of [python s3_file_monitor.py ./docs bucket up/]. *)
Definition handler_of (s3 : s3_client) : S3FileHandler :=
  {| client := s3; bucket_name := "bucket"; s3_prefix := normalize_prefix "up/" |}.

Definition file_at (p : string) : event := {| src_path := p; is_directory := false |}.
Definition directory_at (p : string) : event := {| src_path := p; is_directory := true |}.

Definition docs_hi : gmap string node :=
  {[ "docs" := Directory 4096;
     "docs/a.txt" := RegularFile (bytes "hi") ]}.

Definition docs_hi_there : gmap string node :=
  {[ "docs" := Directory 4096;
     "docs/a.txt" := RegularFile (bytes "hi there") ]}.

Definition docs_two : gmap string node :=
  {[ "docs" := Directory 4096;
     "docs/a.txt" := RegularFile (bytes "hi");
     "docs/b.json" := RegularFile (bytes "{}") ]}.

Definition docs_nested : gmap string node :=
  {[ "docs" := Directory 4096;
     "docs/x" := Directory 4096;
     "docs/y" := Directory 4096;
     "docs/x/report.txt" := RegularFile (bytes "first");
     "docs/y/report.txt" := RegularFile (bytes "second") ]}.

Definition only_a_file : gmap string node :=
  {[ "notes.txt" := RegularFile (bytes "hi") ]}.

(** ** Vocabulary of the further statements *)

(** A create or modify event whose [is_directory] flag is not set: the
    events that reach [_handle_file_event]. *)
Definition is_file_event (fe : fs_event) : bool :=
  match fe with
  | Created ev | Modified ev => negb (is_directory ev)
  | _ => false
  end.

(** A [put_object] into the bucket of the handler, under its prefix
    followed by a name without separator. *)
Definition handler_upload (self : S3FileHandler) (c : s3_call) : Prop :=
  ∃ r name, c = PutObject r ∧ Bucket r = bucket_name self
            ∧ Key r = s3_prefix self +:+ name
            ∧ Pathlib.no_char Pathlib.is_sep name = true.

(** [w'] is [w] with records added to the log, requests added to the
    calls and objects added or replaced in S3; what was printed, the
    watches and the state of the observer are the same. *)
Definition extends (w w' : world) : Prop :=
  log w `prefix_of` log w'
  ∧ calls w `prefix_of` calls w'
  ∧ (∀ k, is_Some (objects w !! k) → is_Some (objects w' !! k))
  ∧ stdout w' = stdout w
  ∧ watches w' = watches w
  ∧ observer_running w' = observer_running w.

(** [sys.argv[3] if len(sys.argv) > 3 else ""], for [rest = sys.argv[3:]]. *)
Definition prefix_argument (rest : list string) : string :=
  match rest with p :: _ => p | [] => "" end.

(** The handler [main] builds from its arguments. *)
Definition handler_of_arguments (aws : s3_client) (bucket : string) (rest : list string)
  : S3FileHandler :=
  {| client := aws; bucket_name := bucket;
     s3_prefix := normalize_prefix (prefix_argument rest) |}.

(** A service that refuses the first [put_object] it receives with [e] and
    accepts the following ones. *)
Definition refusing_once (e : exn) : s3_client :=
  {| list_buckets_response := inr ["bucket"];
     head_bucket_response := fun _ => None;
     put_object_response := fun history _ =>
       match puts history with [] => Some e | _ => None end |}.

(** No credentials are configured. *)
Definition without_credentials : s3_client :=
  {| list_buckets_response := inl NoCredentialsError;
     head_bucket_response := fun _ => Some NoCredentialsError;
     put_object_response := fun _ _ => Some NoCredentialsError |}.

(** The account owns [bucket]; any other bucket does not exist. *)
Definition only_bucket : s3_client :=
  {| list_buckets_response := inr ["bucket"];
     head_bucket_response := fun b =>
       if String.eqb b "bucket" then None else Some (ClientError "NoSuchBucket");
     put_object_response := fun _ _ => None |}.

Definition docs_dotfiles : gmap string node :=
  {[ "docs" := Directory 4096;
     "docs/.json" := RegularFile (bytes "{}");
     "docs/sub" := Directory 64 ]}.

(** ** The client that [boto3.client('s3')] builds, over the store *)

(** What comes back from one submission of a request: the store accepts
    it, the store answers with an HTTP error status and an error code, or
    the connection fails on the way. *)
Inductive store_answer :=
| Accepted
| HttpError (status : nat) (code : string)
| ConnectionFailed.

(** [create_s3_client] builds the client as [boto3.client('s3')], without
    a [Config]: the retry handler is botocore's default one (mode
    ["legacy"]), with the rules of botocore's [_retry.json] for S3: at most
    five submissions of a request; a failed connection, the statuses 429,
    500, 502, 503, 504 and 509, and the listed codes with status 400 are
    submitted again. *)
Definition max_attempts : nat := 5.

Definition retried_statuses : list nat := [429; 500; 502; 503; 504; 509].

Definition retried_codes : list string :=
  ["Throttling"; "ThrottlingException"; "ThrottledException";
   "RequestThrottledException"; "ProvisionedThroughputExceededException";
   "RequestTimeout"; "BadDigest"].

Definition retried (a : store_answer) : bool :=
  match a with
  | Accepted => false
  | HttpError status code =>
      bool_decide (status ∈ retried_statuses)
      || (Nat.eqb status 400 && bool_decide (code ∈ retried_codes))
  | ConnectionFailed => true
  end.

(** What the client raises for the answer it gives up on. *)
Definition raised_for (a : store_answer) : option exn :=
  match a with
  | Accepted => None
  | HttpError _ code => Some (ClientError code)
  | ConnectionFailed => Some EndpointConnectionError
  end.

(** What the client does during one call: it submits the request, and
    sleeps before it submits again.  The sleep after the [k]-th submission
    is [random.random() * 2 ** (k - 1)] seconds; [ceiling] is its bound
    [2 ** (k - 1)]. *)
Inductive client_step :=
| Submit (r : put_request) (a : store_answer)
| Sleep (ceiling : nat).

(** The loop of the retry handler.  [answer k] is what comes back from
    the submission number [k] of this call, counted from 0; [made]
    submissions are behind, [remaining] are allowed. *)
Fixpoint send (answer : nat -> store_answer) (r : put_request) (made remaining : nat)
  : list client_step * option exn :=
  match remaining with
  | 0 => ([], None)
  | S remaining' =>
      let a := answer made in
      if retried a && negb (Nat.eqb remaining' 0)
      then let '(steps, outcome) := send answer r (S made) remaining' in
           (Submit r a :: Sleep (2 ^ made) :: steps, outcome)
      else ([Submit r a], raised_for a)
  end.

Definition client_put_object (answer : nat -> store_answer) (r : put_request)
  : list client_step * option exn :=
  send answer r 0 max_attempts.

Definition submissions (steps : list client_step) : list put_request :=
  omap (fun s => match s with Submit r _ => Some r | Sleep _ => None end) steps.


(** The store behind the client.  [store_put_object history r k] is what
    comes back from the submission number [k] of the call [put_object r]
    made after the calls [history]. *)
Record s3_store := {
  store_list_buckets : exn + list string;
  store_head_bucket : string -> option exn;
  store_put_object : list s3_call -> put_request -> nat -> store_answer }.

Definition boto3_client (store : s3_store) : s3_client :=
  {| list_buckets_response := store_list_buckets store;
     head_bucket_response := store_head_bucket store;
     put_object_response := fun history r =>
       (client_put_object (store_put_object store history r) r).2 |}.

(** The [put_object] submissions the store has received for the calls
    [cs] made after [history]. *)
Fixpoint received_from (store : s3_store) (history cs : list s3_call) : list put_request :=
  match cs with
  | [] => []
  | PutObject r :: rest =>
      submissions (client_put_object (store_put_object store history r) r).1
      ++ received_from store (history ++ [PutObject r]) rest
  | c :: rest => received_from store (history ++ [c]) rest
  end.

Definition store_received (store : s3_store) (w : world) : list put_request :=
  received_from store [] (calls w).


(** A store that answers every submission the same way. *)
Definition answering (a : store_answer) : s3_store :=
  {| store_list_buckets := inr ["bucket"];
     store_head_bucket := fun _ => None;
     store_put_object := fun _ _ _ => a |}.

(** A store that answers the first [k] submissions of every call with
    [a] and accepts the next one. *)
Definition answering_first (k : nat) (a : store_answer) : s3_store :=
  {| store_list_buckets := inr ["bucket"];
     store_head_bucket := fun _ => None;
     store_put_object := fun _ _ i => if i <? k then a else Accepted |}.

(** * Properties *)

(** ** Paths and extensions *)

Example content_type_json : _get_content_type "docs/b.json" = "application/json".
Proof. reflexivity. Qed.

Example content_type_png : _get_content_type "/srv/watch/c.PNG" = "image/png".
Proof. reflexivity. Qed.

Example content_type_hidden : _get_content_type ".json" = "application/octet-stream".
Proof. reflexivity. Qed.

Example content_type_yaml : _get_content_type "config.yaml" = "application/octet-stream".
Proof. reflexivity. Qed.

Example content_type_trailing_dot :
  _get_content_type "a/b/notes." = "application/octet-stream".
Proof. reflexivity. Qed.

Example name_trailing_sep : Pathlib.name "docs/sub/" = "sub".
Proof. reflexivity. Qed.

Example rstrip_example : Pathlib.rstrip_sep "up//" = "up".
Proof. reflexivity. Qed.

Section PathFacts.
Import Pathlib.

Lemma str_app_nil (s : string) : "" +:+ s = s.
Proof. reflexivity. Qed.

Lemma str_app_cons (c : ascii) (r s : string) :
  String c r +:+ s = String c (r +:+ s).
Proof. reflexivity. Qed.

Lemma split_sep_cons (s : string) : ∃ h t, split_sep s = h :: t.
Proof.
  induction s as [|c r [h [t IH]]]; simpl; [by eauto|].
  destruct (is_sep c); [by eauto|]. rewrite IH. by eauto.
Qed.

Lemma split_sep_plain (n : string) :
  no_char is_sep n = true → split_sep n = [n].
Proof.
  induction n as [|c r IH]; simpl; [done|].
  intros [Hc Hr]%andb_true_iff. apply negb_true_iff in Hc.
  rewrite Hc, (IH Hr). done.
Qed.

Lemma split_sep_join (d n : string) :
  split_sep (d +:+ "/" +:+ n) = split_sep d ++ split_sep n.
Proof.
  induction d as [|c r IH]; simpl; [done|].
  rewrite IH. destruct (is_sep c); [done|].
  destruct (split_sep_cons r) as [h [t ->]]. done.
Qed.

Lemma last_snoc {A} (l : list A) (x d : A) : List.last (l ++ [x]) d = x.
Proof.
  induction l as [|a l IH]; simpl; [done|].
  destruct (l ++ [x]) eqn:E; [by destruct l|]. exact IH.
Qed.

(** The name of a path is its last component when that is an ordinary
    file name. *)
Lemma name_join (d n : string) :
  no_char is_sep n = true → keeps_part n = true →
  name (d +:+ "/" +:+ n) = n.
Proof.
  intros Hsep Hkeep. unfold name, parts.
  rewrite split_sep_join, List.filter_app, (split_sep_plain n Hsep).
  simpl. rewrite Hkeep. apply last_snoc.
Qed.

Lemma name_plain (n : string) :
  no_char is_sep n = true → keeps_part n = true → name n = n.
Proof.
  intros Hsep Hkeep. unfold name, parts.
  rewrite (split_sep_plain n Hsep). simpl. by rewrite Hkeep.
Qed.

Lemma rfind_dot_none (x : string) :
  no_char is_dot x = true → rfind_dot x = None.
Proof.
  induction x as [|c r IH]; simpl; [done|].
  intros [Hc Hr]%andb_true_iff. apply negb_true_iff in Hc.
  by rewrite (IH Hr), Hc.
Qed.

Lemma rfind_dot_last (stem x : string) :
  no_char is_dot x = true →
  rfind_dot (stem +:+ "." +:+ x) = Some (String.length stem).
Proof.
  intros Hx. change ("." +:+ x) with (String "."%char x).
  induction stem as [|c r IH]; rewrite ?str_app_nil, ?str_app_cons; simpl.
  - by rewrite (rfind_dot_none x Hx).
  - by rewrite IH.
Qed.

Lemma drop_str_app (stem e : string) :
  drop_str (String.length stem) (stem +:+ e) = e.
Proof.
  induction stem as [|c r IH]; simpl; [by destruct e|done].
Qed.

Lemma str_length_app (a b : string) :
  String.length (a +:+ b) = String.length a + String.length b.
Proof. induction a as [|c r IH]; simpl; [done|by rewrite IH]. Qed.

Lemma no_char_app f (a b : string) :
  no_char f (a +:+ b) = no_char f a && no_char f b.
Proof.
  induction a as [|c r IH]; simpl; [done|].
  by rewrite IH, andb_assoc.
Qed.

Lemma keeps_part_two (s : string) :
  2 ≤ String.length s → keeps_part s = true.
Proof.
  destruct s as [|c [|c' r]]; simpl; [lia|lia|intros _].
  unfold keeps_part. simpl. by destruct (Ascii.eqb c ".").
Qed.

Lemma keeps_part_long (stem x : string) :
  stem ≠ "" → keeps_part (stem +:+ "." +:+ x) = true.
Proof.
  intros Hs. apply keeps_part_two. rewrite str_length_app.
  destruct stem; [done|]. simpl. lia.
Qed.

(** The suffix of [dir/stem.x]. *)
Lemma suffix_of_name (p stem x : string) :
  name p = stem +:+ "." +:+ x →
  stem ≠ "" → x ≠ "" → no_char is_dot x = true →
  suffix p = "." +:+ x.
Proof.
  intros Hn Hs Hx Hdot. unfold suffix. rewrite Hn.
  rewrite (rfind_dot_last stem x Hdot).
  change ("." +:+ x) with (String "."%char x).
  rewrite str_length_app. simpl String.length.
  assert (0 < String.length stem) as H1 by (destruct stem; [done|simpl; lia]).
  assert (0 < String.length x) as H2 by (destruct x; [done|simpl; lia]).
  assert ((0 <? String.length stem) = true) as -> by (apply Nat.ltb_lt; lia).
  assert ((String.length stem <? String.length stem + S (String.length x) - 1) = true)
    as -> by (apply Nat.ltb_lt; lia).
  simpl. apply drop_str_app.
Qed.

Lemma lower_length (s : string) : String.length (lower s) = String.length s.
Proof. induction s as [|c r IH]; simpl; [done|by rewrite IH]. Qed.

End PathFacts.

Section ContentType.
Import Pathlib.

Lemma dict_get_notin (d : list (string * string)) (k default : string) :
  k ∉ d.*1 → dict_get d k default = default.
Proof.
  induction d as [|[k' v] d IH]; simpl; [done|].
  intros Hk. apply not_elem_of_cons in Hk as [Hne Hk].
  destruct (String.eqb_spec k' k); [congruence|]. by apply IH.
Qed.

Lemma dict_get_in (d : list (string * string)) (k v default : string) :
  NoDup d.*1 → (k, v) ∈ d → dict_get d k default = v.
Proof.
  induction d as [|[k' v'] d IH]; simpl; [by intros _ ?%elem_of_nil|].
  intros [Hk' Hd]%NoDup_cons [Heq|Hin]%elem_of_cons.
  - inversion Heq; subst. by rewrite String.eqb_refl.
  - destruct (String.eqb_spec k' k) as [->|_]; [|by apply IH].
    exfalso. apply Hk'. apply list_elem_of_fmap. by exists (k, v).
Qed.

Lemma content_types_keys_NoDup : NoDup content_types.*1.
Proof. apply (bool_decide_unpack _). by vm_compute. Qed.

Lemma lower_dot (x : string) : lower ("." +:+ x) = "." +:+ lower x.
Proof. reflexivity. Qed.

(** The extension of [stem.x], alone or below a directory. *)
Lemma suffix_stem_ext (p stem x : string) :
  (p = stem +:+ "." +:+ x ∨ ∃ dir, p = dir +:+ "/" +:+ stem +:+ "." +:+ x) →
  stem ≠ "" → x ≠ "" →
  no_char is_sep stem = true →
  no_char is_sep x = true → no_char is_dot x = true →
  suffix p = "." +:+ x.
Proof.
  intros Hp Hs Hx Hsep Hsepx Hdot.
  assert (no_char is_sep (stem +:+ "." +:+ x) = true) as Hn.
  { rewrite !no_char_app, Hsep, Hsepx. done. }
  apply (suffix_of_name p stem x); try done.
  destruct Hp as [->|[dir ->]].
  - apply name_plain; [done|by apply keeps_part_long].
  - apply name_join; [done|by apply keeps_part_long].
Qed.

(** C4.  The content type of a path is found by a lookup of the
    lowercased extension in [content_types]: the entry of the table when
    there is one, [application/octet-stream] when the extension is not in
    the table or the name has none.  A file [stem.x], alone or below a
    directory, whose stem is not made of dots and whose extension spells
    [json] in any letter case gets [application/json], and [image/png] when
    it spells [png]. *)
Theorem content_type_resolver (p : string) :
  let ext := lower (suffix p) in
  (∀ m, (ext, m) ∈ content_types → _get_content_type p = m)
  ∧ (ext ∉ content_types.*1 → _get_content_type p = "application/octet-stream")
  ∧ (suffix p = "" → _get_content_type p = "application/octet-stream")
  ∧ (∀ stem x,
       (p = stem +:+ "." +:+ x ∨ ∃ dir, p = dir +:+ "/" +:+ stem +:+ "." +:+ x) →
       only_dots stem = false → no_char is_sep stem = true →
       no_char is_sep x = true → no_char is_dot x = true →
       (lower x = "json" → _get_content_type p = "application/json")
       ∧ (lower x = "png" → _get_content_type p = "image/png")).
Proof.
  intros ext. unfold _get_content_type. fold ext.
  split; [|split; [|split; [|intros stem x Hp Hdots Hsep Hsepx Hdot;
    assert (stem ≠ "") by (by intros ->); split]]].
  - intros m Hm. by apply dict_get_in; [apply content_types_keys_NoDup|].
  - apply dict_get_notin.
  - intros Hnone. subst ext. by rewrite Hnone.
  - intros Hx. subst ext.
    rewrite (suffix_stem_ext p stem x); try done.
    + by rewrite lower_dot, Hx.
    + intros ->. done.
  - intros Hx. subst ext.
    rewrite (suffix_stem_ext p stem x); try done.
    + by rewrite lower_dot, Hx.
    + intros ->. done.
Qed.

Lemma content_type_resolver_witness :
  _get_content_type "docs/b.JSON" = "application/json"
  ∧ _get_content_type "c.png" = "image/png"
  ∧ _get_content_type "docs/Makefile" = "application/octet-stream"
  ∧ _get_content_type "docs/config.yaml" = "application/octet-stream"
  ∧ _get_content_type "docs/a.TXT" = "text/plain".
Proof.
  split; [|split; [|split; [|split]]].
  - refine (proj1 (proj2 (proj2 (proj2 (content_type_resolver "docs/b.JSON")))
                     "b" "JSON" _ _ _ _ _) _);
      [right; by exists "docs"|reflexivity|reflexivity|reflexivity|reflexivity
      |reflexivity].
  - refine (proj2 (proj2 (proj2 (proj2 (content_type_resolver "c.png")))
                     "c" "png" _ _ _ _ _) _);
      [by left|reflexivity|reflexivity|reflexivity|reflexivity|reflexivity].
  - apply (proj1 (proj2 (proj2 (content_type_resolver "docs/Makefile")))).
    reflexivity.
  - apply (proj1 (proj2 (content_type_resolver "docs/config.yaml"))).
    apply (bool_decide_unpack _). vm_compute. exact I.
  - apply (proj1 (content_type_resolver "docs/a.TXT")).
    apply (bool_decide_unpack _). vm_compute. exact I.
Defined.

End ContentType.

(** ** File system accesses *)

Section FileSystem.

Lemma fs_access_eq (w : world) : fs_access w = (Returns (fs_now w), advance w).
Proof. unfold fs_access, advance. by destruct (fs_later w). Qed.

Lemma objects_advance (w : world) : objects (advance w) = objects w.
Proof. unfold advance. by destruct (fs_later w). Qed.

Lemma calls_advance (w : world) : calls (advance w) = calls w.
Proof. unfold advance. by destruct (fs_later w). Qed.

Lemma log_advance (w : world) : log (advance w) = log w.
Proof. unfold advance. by destruct (fs_later w). Qed.

Lemma stdout_advance (w : world) : stdout (advance w) = stdout w.
Proof. unfold advance. by destruct (fs_later w). Qed.

Lemma watches_advance (w : world) : watches (advance w) = watches w.
Proof. unfold advance. by destruct (fs_later w). Qed.

Lemma observer_running_advance (w : world) :
  observer_running (advance w) = observer_running w.
Proof. unfold advance. by destruct (fs_later w). Qed.

Lemma advance_set_log l (w : world) : advance (set_log l w) = set_log l (advance w).
Proof. unfold advance. simpl. by destruct (fs_later w). Qed.

Lemma advance_set_s3 o c (w : world) : advance (set_s3 o c w) = set_s3 o c (advance w).
Proof. unfold advance. simpl. by destruct (fs_later w). Qed.

Lemma advance_set_stdout l (w : world) :
  advance (set_stdout l w) = set_stdout l (advance w).
Proof. unfold advance. simpl. by destruct (fs_later w). Qed.

Lemma advance_set_observer ws r (w : world) :
  advance (set_observer ws r w) = set_observer ws r (advance w).
Proof. unfold advance. simpl. by destruct (fs_later w). Qed.

Lemma snapshot_settled (k : nat) (now : gmap string node) : snapshot k now [] = now.
Proof. by destruct k. Qed.

Lemma fs_seen_advance (k : nat) (w : world) :
  fs_seen k (advance w) = fs_seen (S k) w.
Proof.
  unfold fs_seen, advance. destruct (fs_later w) as [|f l] eqn:E; simpl.
  - rewrite E. apply snapshot_settled.
  - done.
Qed.

Lemma fs_seen_now (w : world) : fs_seen 0 w = fs_now w.
Proof. unfold fs_seen. by destruct (fs_later w). Qed.

Lemma fs_seen_static (k : nat) (w : world) :
  fs_later w = [] → fs_seen k w = fs_now w.
Proof. unfold fs_seen. intros ->. apply snapshot_settled. Qed.

Lemma fs_seen_frame (k : nat) (w w' : world) :
  fs_now w' = fs_now w → fs_later w' = fs_later w → fs_seen k w' = fs_seen k w.
Proof. unfold fs_seen. by intros -> ->. Qed.

Lemma stat_size_eq (p : string) (w : world) :
  stat_size p w =
    match fs_now w !! p with
    | Some n => (Returns (st_size_of n), advance w)
    | None => (Raises FileNotFoundError, advance w)
    end.
Proof.
  unfold stat_size, mbind, M_bind. rewrite fs_access_eq.
  by destruct (fs_now w !! p) as [[]|].
Qed.

Lemma open_rb_eq (p : string) (w : world) :
  open_rb p w =
    match fs_now w !! p with
    | Some (RegularFile content) => (Returns content, advance w)
    | Some (Directory _) => (Raises IsADirectoryError, advance w)
    | None => (Raises FileNotFoundError, advance w)
    end.
Proof.
  unfold open_rb, mbind, M_bind. rewrite fs_access_eq.
  by destruct (fs_now w !! p) as [[]|].
Qed.

End FileSystem.

Create Rewrite HintDb world.
#[global] Hint Rewrite objects_advance calls_advance log_advance stdout_advance
  watches_advance observer_running_advance
  advance_set_log advance_set_s3 advance_set_stdout advance_set_observer : world.

(** Unfold the statements of a handler down to the primitives. *)
Ltac run_handler :=
  unfold _handle_file_event, _upload_to_s3, try_except, mbind, M_bind, mret, M_ret.

(** Bring both sides of an equation between worlds to the same shape:
    [advance] innermost, then one record of fields. *)
Ltac world_norm :=
  unfold after_stat, logger_info, logger_error, print;
  autorewrite with world;
  cbv [set_log set_s3 set_stdout set_observer];
  cbn [fs_now fs_later objects calls log stdout watches observer_running];
  autorewrite with world.

Ltac world_eq := simpl; world_norm; rewrite <- ?app_assoc; try reflexivity.

(** ** One event *)

Section OneEvent.
Variable self : S3FileHandler.

(** An exception of the upload that derives from [Exception] ends in
    one error record. *)
Lemma upload_except_logs (local_path file_name : string) (e : exn) :
  is_Exception e = true →
  ∃ m, _upload_to_s3_except self local_path file_name e = Some (logger_error m).
Proof.
  destruct e; simpl; try done; eauto.
  repeat case_match; eauto.
Qed.

(** The file is gone when the handler asks for its size. *)
Lemma handle_vanished_before_stat (p ty : string) (w : world) :
  fs_now w !! p = None →
  _handle_file_event self p ty w =
    (Returns (),
     set_log (log w ++ [(ERROR, MsgProcessingError p FileNotFoundError)]) (advance w)).
Proof.
  intros Hp. run_handler. rewrite stat_size_eq, Hp. simpl. world_eq.
Qed.

(** The file is gone when the handler opens it. *)
Lemma handle_vanished_before_open (p ty : string) (n : node) (w : world) :
  fs_now w !! p = Some n → fs_now (advance w) !! p = None →
  _handle_file_event self p ty w =
    (Returns (),
     set_log (log (after_stat p ty n w) ++ [(ERROR, MsgFileNotFound p)])
             (after_stat p ty n w)).
Proof.
  intros Hp Hq. run_handler.
  rewrite stat_size_eq, Hp. unfold logger_info at 1.
  rewrite open_rb_eq. simpl. rewrite Hq. simpl. world_eq.
Qed.

(** The file is read and the service accepts the request. *)
Lemma handle_accepted (p ty : string) (n : node) (content : list byte) (w : world) :
  fs_now w !! p = Some n →
  fs_now (advance w) !! p = Some (RegularFile content) →
  put_object_response (client self) (calls w) (upload_request self p content) = None →
  let w1 := after_stat p ty n w in
  _handle_file_event self p ty w =
    (Returns (),
     set_log (log w1 ++ [(INFO, MsgUploaded (Pathlib.name p));
                         (INFO, MsgUrl (upload_url self p))])
       (set_s3 (<[(bucket_name self, s3_key_of self p) :=
                   {| obj_body := content;
                      obj_content_type := _get_content_type p |}]> (objects w))
               (calls w ++ [PutObject (upload_request self p content)]) w1)).
Proof.
  intros Hp Hq Hr. run_handler.
  rewrite stat_size_eq, Hp. unfold logger_info at 1.
  rewrite open_rb_eq. simpl. rewrite Hq. simpl.
  unfold put_object. simpl. world_norm.
  fold (s3_key_of self p). fold (upload_request self p content).
  rewrite Hr. unfold upload_url, upload_request, s3_key_of. world_eq.
Qed.

(** The file is read and the service raises [e]. *)
Lemma handle_refused (p ty : string) (n : node) (content : list byte) (e : exn)
    (m : message) (w : world) :
  fs_now w !! p = Some n →
  fs_now (advance w) !! p = Some (RegularFile content) →
  put_object_response (client self) (calls w) (upload_request self p content) = Some e →
  _upload_to_s3_except self p (Pathlib.name p) e = Some (logger_error m) →
  let w1 := after_stat p ty n w in
  _handle_file_event self p ty w =
    (Returns (),
     set_log (log w1 ++ [(ERROR, m)])
       (set_s3 (objects w) (calls w ++ [PutObject (upload_request self p content)]) w1)).
Proof.
  intros Hp Hq Hr Hm. run_handler.
  rewrite stat_size_eq, Hp. unfold logger_info at 1.
  rewrite open_rb_eq. simpl. rewrite Hq. simpl.
  unfold put_object. simpl. world_norm.
  fold (s3_key_of self p). fold (upload_request self p content).
  rewrite Hr. simpl. rewrite Hm. unfold upload_request, s3_key_of. world_eq.
Qed.

End OneEvent.

Section EveryEvent.
Variable self : S3FileHandler.

Lemma puts_app (a b : list s3_call) : puts (a ++ b) = puts a ++ puts b.
Proof.
  induction a as [|c a IH]; simpl; [done|].
  destruct c; simpl; by rewrite ?IH.
Qed.

Lemma errors_app (a b : list (level * message)) :
  errors (a ++ b) = errors a ++ errors b.
Proof. apply omap_app. Qed.

Lemma drop_own_length {A} (a b : list A) : drop (length a) (a ++ b) = b.
Proof. by rewrite drop_app_length. Qed.

Lemma dispatch_file_event (p : string) (fe : fs_event) :
  file_event_on p fe →
  dispatch self fe = _handle_file_event self p (event_type_of fe).
Proof.
  destruct fe as [ev|ev|ev|ev]; simpl; try done;
    intros [<- Hd]; unfold on_created, on_modified; by rewrite Hd.
Qed.

(** The path is not a regular file when the handler opens it. *)
Lemma handle_directory (p ty : string) (n : node) (sz : nat) (w : world) :
  fs_now w !! p = Some n → fs_now (advance w) !! p = Some (Directory sz) →
  _handle_file_event self p ty w =
    (Returns (),
     set_log (log (after_stat p ty n w) ++
                [(ERROR, MsgUnexpectedUploadError (Pathlib.name p) IsADirectoryError)])
             (after_stat p ty n w)).
Proof.
  intros Hp Hq. run_handler.
  rewrite stat_size_eq, Hp. unfold logger_info at 1.
  rewrite open_rb_eq. simpl. rewrite Hq. simpl. world_eq.
Qed.

(** A file that is there when its size is asked and when it is opened
    is submitted, whatever the service answers. *)
Lemma handle_submits (p ty : string) (n : node) (content : list byte) (w : world) :
  fs_now w !! p = Some n →
  fs_now (advance w) !! p = Some (RegularFile content) →
  calls (_handle_file_event self p ty w).2
    = calls w ++ [PutObject (upload_request self p content)].
Proof.
  intros Hp Hq.
  destruct (put_object_response (client self) (calls w) (upload_request self p content))
    as [e|] eqn:Hr.
  - destruct (is_Exception e) eqn:He.
    + destruct (upload_except_logs self p (Pathlib.name p) e He) as [m Hm].
      by rewrite (handle_refused self p ty n content e m w Hp Hq Hr Hm).
    + run_handler. rewrite stat_size_eq, Hp. unfold logger_info at 1.
      rewrite open_rb_eq. simpl. rewrite Hq. simpl.
      unfold put_object. simpl. world_norm.
      fold (s3_key_of self p). fold (upload_request self p content).
      rewrite Hr. by destruct e.
  - by rewrite (handle_accepted self p ty n content w Hp Hq Hr).
Qed.

(** Whatever happens, one event adds at most one request, and that
    request is the upload of the event's path. *)
Lemma handle_submitted (p ty : string) (w : world) :
  submitted_by (_handle_file_event self p ty) w = []
  ∨ ∃ body, submitted_by (_handle_file_event self p ty) w
              = [PutObject (upload_request self p body)].
Proof.
  unfold submitted_by.
  destruct (fs_now w !! p) as [n|] eqn:Hp.
  2:{ left. rewrite (handle_vanished_before_stat self p ty w Hp). simpl.
      autorewrite with world. by rewrite drop_all. }
  destruct (fs_now (advance w) !! p) as [[content|sz]|] eqn:Hq.
  3:{ left. rewrite (handle_vanished_before_open self p ty n w Hp Hq). simpl.
      world_norm. by rewrite drop_all. }
  2:{ left. rewrite (handle_directory p ty n sz w Hp Hq). simpl.
      world_norm. by rewrite drop_all. }
  right. exists content.
  by rewrite (handle_submits p ty n content w Hp Hq), drop_own_length.
Qed.

Lemma fs_seen_2 (w : world) : fs_seen 2 w = fs_now (advance (advance w)).
Proof. by rewrite <- !fs_seen_advance, fs_seen_now. Qed.

Lemma fs_seen_3 (w : world) : fs_seen 3 w = fs_now (advance (advance (advance w))).
Proof. by rewrite <- !fs_seen_advance, fs_seen_now. Qed.

End EveryEvent.

(** ** Directory events *)

Section DirectoryEvents.
Variable self : S3FileHandler.

Lemma run_directory_events (evs : list fs_event) (w : world) :
  Forall directory_event evs → run_events self evs w = (Returns (), w).
Proof.
  induction 1 as [|fe evs Hfe _ IH]; simpl; [done|].
  unfold mbind, M_bind.
  destruct fe as [ev|ev|ev|ev]; simpl in Hfe; try done;
    simpl; unfold on_created, on_modified; rewrite Hfe; simpl; exact IH.
Qed.

(** C8.  An event whose [is_directory] flag is set reaches neither
    [_handle_file_event] nor S3: [on_created] and [on_modified] return
    and leave the world as it was, and so does any run of such events.
    Conversely an event that made the handler send a request is a create
    or modify event whose flag is not set. *)
Theorem directory_events_filtered (w : world) :
  (∀ ev, is_directory ev = true →
         on_created self ev w = (Returns (), w)
         ∧ on_modified self ev w = (Returns (), w))
  ∧ (∀ evs, Forall directory_event evs → run_events self evs w = (Returns (), w))
  ∧ (∀ fe, calls (dispatch self fe w).2 ≠ calls w →
           ∃ ev, (fe = Created ev ∨ fe = Modified ev) ∧ is_directory ev = false).
Proof.
  split; [|split].
  - intros ev Hd. unfold on_created, on_modified. by rewrite Hd.
  - intros evs Hevs. by apply run_directory_events.
  - intros [ev|ev|ev|ev] Hc; simpl in Hc; try done;
      exists ev; (split; [by eauto|]);
      unfold on_created, on_modified in Hc;
      by destruct (is_directory ev).
Qed.

End DirectoryEvents.

(** ** A file that vanishes, and errors in general *)

Section Errors.
Variable self : S3FileHandler.

Lemma fs_seen_1 (w : world) : fs_seen 1 w = fs_now (advance w).
Proof. by rewrite <- fs_seen_advance, fs_seen_now. Qed.

(** One event, when the service raises nothing but [Exception]s: the
    handler returns; either the upload went through and no error is
    logged, or exactly one error record is added. *)
Lemma handle_returns (p ty : string) (w : world) :
  raises_only_Exceptions (client self) →
  ∃ w', _handle_file_event self p ty w = (Returns (), w')
        ∧ ((∃ m, errors (log w') = errors (log w) ++ [m] ∧ objects w' = objects w)
           ∨ (∃ body, errors (log w') = errors (log w)
                ∧ calls w' = calls w ++ [PutObject (upload_request self p body)]
                ∧ objects w' !! (bucket_name self, s3_key_of self p)
                    = Some {| obj_body := body;
                              obj_content_type := _get_content_type p |})).
Proof.
  intros Hs3.
  destruct (fs_now w !! p) as [n|] eqn:Hp.
  2:{ eexists. split; [by apply handle_vanished_before_stat|]. left.
      eexists. simpl. rewrite errors_app. split; [done|].
      by autorewrite with world. }
  destruct (fs_now (advance w) !! p) as [[content|sz]|] eqn:Hq.
  3:{ eexists. split; [by eapply handle_vanished_before_open|]. left.
      eexists. simpl. world_norm. rewrite !errors_app, <- app_assoc. done. }
  2:{ eexists. split; [by eapply handle_directory|]. left.
      eexists. simpl. world_norm. rewrite !errors_app, <- app_assoc. done. }
  destruct (put_object_response (client self) (calls w) (upload_request self p content))
    as [e|] eqn:Hr.
  - destruct (upload_except_logs self p (Pathlib.name p) e (Hs3 _ _ _ Hr)) as [m Hm].
    eexists. split; [by eapply handle_refused|]. left.
    exists m. simpl. world_norm. rewrite !errors_app, <- app_assoc. done.
  - eexists. split; [by eapply handle_accepted|]. right.
    exists content. simpl. world_norm. rewrite !errors_app. simpl.
    rewrite !app_nil_r. split; [done|]. split; [done|].
    apply lookup_insert_eq.
Qed.

Lemma run_events_returns (evs : list fs_event) (w : world) :
  raises_only_Exceptions (client self) →
  ∃ w', run_events self evs w = (Returns (), w').
Proof.
  intros Hs3. revert w. induction evs as [|fe evs IH]; intros w; simpl.
  - by eexists.
  - unfold mbind, M_bind.
    assert (∃ w1, dispatch self fe w = (Returns (), w1)) as [w1 ->].
    { destruct fe as [ev|ev|ev|ev]; simpl; try by eexists.
      - unfold on_created. destruct (is_directory ev); simpl; [by eexists|].
        destruct (handle_returns (src_path ev) "created" w Hs3) as (w1 & -> & _).
        by eexists.
      - unfold on_modified. destruct (is_directory ev); simpl; [by eexists|].
        destruct (handle_returns (src_path ev) "modified" w Hs3) as (w1 & -> & _).
        by eexists. }
    apply IH.
Qed.

(** C6.  When the file is gone by the time the handler asks for its
    size, or by the time it opens it, the handler returns, has sent
    nothing to S3 and has logged the missing file, in a record of its own
    that is none of the records of a failed upload.  With a service that
    raises only [Exception]s the handler returns from every event, and a
    run of events returns as well; an event that did not end in an
    accepted upload has added exactly one error record. *)
Theorem vanished_file_dropped_and_nothing_raised :
  (∀ p ty w,
      fs_seen 0 w !! p = None →
      ∃ w', _handle_file_event self p ty w = (Returns (), w')
            ∧ calls w' = calls w ∧ objects w' = objects w
            ∧ log w' = log w ++ [(ERROR, MsgProcessingError p FileNotFoundError)])
  ∧ (∀ p ty w n,
      fs_seen 0 w !! p = Some n → fs_seen 1 w !! p = None →
      ∃ w', _handle_file_event self p ty w = (Returns (), w')
            ∧ calls w' = calls w ∧ objects w' = objects w
            ∧ log w' = log w ++ [(INFO, MsgFileEvent ty (Pathlib.name p) (st_size_of n));
                                 (ERROR, MsgFileNotFound p)])
  ∧ (raises_only_Exceptions (client self) →
     (∀ evs w, ∃ w', run_events self evs w = (Returns (), w'))
     ∧ (∀ p ty w,
          ∃ w', _handle_file_event self p ty w = (Returns (), w')
                ∧ ((∃ m, errors (log w') = errors (log w) ++ [m]
                         ∧ objects w' = objects w)
                   ∨ (∃ body, errors (log w') = errors (log w)
                        ∧ calls w' = calls w ++ [PutObject (upload_request self p body)]
                        ∧ objects w' !! (bucket_name self, s3_key_of self p)
                            = Some {| obj_body := body;
                                      obj_content_type := _get_content_type p |})))).
Proof.
  split; [|split].
  - intros p ty w Hp. rewrite fs_seen_now in Hp.
    eexists. split; [by apply handle_vanished_before_stat|].
    simpl. by autorewrite with world.
  - intros p ty w n Hp Hq. rewrite fs_seen_now in Hp. rewrite fs_seen_1 in Hq.
    eexists. split; [by eapply handle_vanished_before_open|].
    simpl. world_norm. by rewrite <- app_assoc.
  - intros Hs3. split.
    + intros evs w. by apply run_events_returns.
    + intros p ty w. by apply handle_returns.
Qed.

End Errors.

Lemma directory_events_filtered_witness :
  on_created (handler_of accepting) (directory_at "docs/sub") (initial_world docs_hi [])
    = (Returns (), initial_world docs_hi [])
  ∧ run_events (handler_of accepting)
      [Created (directory_at "docs/sub"); Modified (directory_at "docs")]
      (initial_world docs_hi [])
    = (Returns (), initial_world docs_hi [])
  ∧ ∃ ev, (Created (file_at "docs/a.txt") = Created ev
           ∨ Created (file_at "docs/a.txt") = Modified ev)
          ∧ is_directory ev = false.
Proof.
  pose proof (directory_events_filtered (handler_of accepting)
                (initial_world docs_hi [])) as (H1 & H2 & H3).
  split; [|split].
  - apply (H1 (directory_at "docs/sub")). reflexivity.
  - apply H2. repeat constructor.
  - apply H3. vm_compute. discriminate.
Defined.

Lemma vanished_file_witness :
  (∃ w', _handle_file_event (handler_of accepting) "docs/gone.txt" "created"
           (initial_world docs_hi []) = (Returns (), w')
         ∧ calls w' = [] ∧ objects w' = ∅
         ∧ log w' = [(ERROR, MsgProcessingError "docs/gone.txt" FileNotFoundError)])
  ∧ (∃ w', _handle_file_event (handler_of accepting) "docs/a.txt" "modified"
             (initial_world docs_hi [∅]) = (Returns (), w')
           ∧ calls w' = [] ∧ objects w' = ∅
           ∧ log w' = [(INFO, MsgFileEvent "modified" "a.txt" 2);
                       (ERROR, MsgFileNotFound "docs/a.txt")])
  ∧ (∃ w', run_events (handler_of (refusing (OtherError "boom")))
             [Created (file_at "docs/a.txt"); Modified (file_at "docs/gone.txt")]
             (initial_world docs_hi []) = (Returns (), w')).
Proof.
  split; [|split].
  - apply (proj1 (vanished_file_dropped_and_nothing_raised (handler_of accepting))).
    reflexivity.
  - apply (proj1 (proj2 (vanished_file_dropped_and_nothing_raised (handler_of accepting)))
             "docs/a.txt" "modified" (initial_world docs_hi [∅])
             (RegularFile (bytes "hi"))); reflexivity.
  - apply (proj2 (proj2 (vanished_file_dropped_and_nothing_raised
                           (handler_of (refusing (OtherError "boom")))))).
    intros history r e [= <-]. reflexivity.
Defined.

(** ** Failed uploads *)

Section FailedUploads.
Variable self : S3FileHandler.

Lemma transient_is_Exception (e : exn) : transient e = true → is_Exception e = true.
Proof. by destruct e. Qed.

(** The record a transient failure ends in. *)
Lemma transient_logged (local_path file_name : string) (e : exn) :
  transient e = true →
  ∃ m, _upload_to_s3_except self local_path file_name e = Some (logger_error m)
       ∧ (m = MsgUploadError e ∨ m = MsgUnexpectedUploadError file_name e).
Proof.
  destruct e as [code| | | | | | | |]; simpl; try done.
  - intros Hc%bool_decide_eq_true. unfold transient_codes in Hc.
    repeat (apply elem_of_cons in Hc as [->|Hc]; [by eauto|]).
    by apply elem_of_nil in Hc.
  - intros _. by eauto.
Qed.

(** The script's own part in a transient failure.  When the client
    reports the same transient error from every [put_object], an event for
    a file that is there makes the handler call [put_object] once: one call
    is added, nothing is stored, the event record is followed by one error
    record, and the handler returns.  The script does not call a second
    time; what is retried is retried inside the client's call. *)
Theorem transient_failure_submitted_once
    (p ty : string) (n : node) (content : list byte) (e : exn) (w : world) :
  fs_seen 0 w !! p = Some n →
  fs_seen 1 w !! p = Some (RegularFile content) →
  (∀ history r, put_object_response (client self) history r = Some e) →
  transient e = true →
  ∃ w' m,
    _handle_file_event self p ty w = (Returns (), w')
    ∧ calls w' = calls w ++ [PutObject (upload_request self p content)]
    ∧ length (puts (calls w')) = length (puts (calls w)) + 1
    ∧ objects w' = objects w
    ∧ log w' = log w ++ [(INFO, MsgFileEvent ty (Pathlib.name p) (st_size_of n));
                         (ERROR, m)]
    ∧ (m = MsgUploadError e ∨ m = MsgUnexpectedUploadError (Pathlib.name p) e).
Proof.
  intros Hp Hq Hall He. rewrite fs_seen_now in Hp. rewrite fs_seen_1 in Hq.
  destruct (transient_logged p (Pathlib.name p) e He) as (m & Hm & Hshape).
  exists (set_log (log (after_stat p ty n w) ++ [(ERROR, m)])
            (set_s3 (objects w) (calls w ++ [PutObject (upload_request self p content)])
                    (after_stat p ty n w))), m.
  split; [by apply (handle_refused self p ty n content e m w)|].
  simpl. world_norm. rewrite puts_app, length_app. simpl.
  by rewrite <- app_assoc.
Qed.

(** C3.  A create or modify event for a file that is there, whose
    upload the service refuses with [AccessDenied] or [NoSuchBucket]: the
    handler submits the request once, stores nothing, follows the event
    record with the one error record of that code, and returns; the
    events that come after are handled from there, and an event for
    another file that is there gets its own request. *)
Theorem permanent_failure_logged_and_skipped
    (p : string) (fe : fs_event) (n : node) (content : list byte) (code : string)
    (w : world) :
  file_event_on p fe →
  permanent (ClientError code) = true →
  fs_seen 0 w !! p = Some n →
  fs_seen 1 w !! p = Some (RegularFile content) →
  put_object_response (client self) (calls w) (upload_request self p content)
    = Some (ClientError code) →
  ∃ w1,
    dispatch self fe w = (Returns (), w1)
    ∧ calls w1 = calls w ++ [PutObject (upload_request self p content)]
    ∧ objects w1 = objects w
    ∧ log w1 = log w ++
        [(INFO, MsgFileEvent (event_type_of fe) (Pathlib.name p) (st_size_of n));
         (ERROR, if String.eqb code "AccessDenied"
                 then MsgAccessDenied (bucket_name self)
                 else MsgNoSuchBucket (bucket_name self))]
    ∧ (∀ rest, run_events self (fe :: rest) w = run_events self rest w1)
    ∧ (∀ p2 fe2 n2 content2,
         file_event_on p2 fe2 →
         fs_seen 2 w !! p2 = Some n2 →
         fs_seen 3 w !! p2 = Some (RegularFile content2) →
         calls (run_events self [fe; fe2] w).2
           = calls w ++ [PutObject (upload_request self p content);
                         PutObject (upload_request self p2 content2)]).
Proof.
  intros Hfe Hperm Hp Hq Hr. rewrite fs_seen_now in Hp. rewrite fs_seen_1 in Hq.
  assert (code = "AccessDenied" ∨ code = "NoSuchBucket") as Hcode.
  { simpl in Hperm. apply orb_true_iff in Hperm as [H|H];
      apply String.eqb_eq in H; eauto. }
  set (m := if String.eqb code "AccessDenied"
            then MsgAccessDenied (bucket_name self)
            else MsgNoSuchBucket (bucket_name self)).
  assert (_upload_to_s3_except self p (Pathlib.name p) (ClientError code)
            = Some (logger_error m)) as Hm.
  { subst m. by destruct Hcode as [-> | ->]. }
  pose proof (handle_refused self p (event_type_of fe) n content _ m w Hp Hq Hr Hm)
    as Hrun.
  simpl in Hrun. eexists. rewrite (dispatch_file_event self p fe Hfe).
  split; [exact Hrun|].
  split; [done|]. split; [done|].
  split; [simpl; world_norm; by rewrite <- app_assoc|].
  split.
  - intros rest. simpl. unfold mbind, M_bind.
    by rewrite (dispatch_file_event self p fe Hfe), Hrun.
  - intros p2 fe2 n2 content2 Hfe2 Hp2 Hq2. simpl. unfold mbind, M_bind, mret, M_ret.
    rewrite (dispatch_file_event self p fe Hfe), Hrun.
    rewrite (dispatch_file_event self p2 fe2 Hfe2).
    rewrite fs_seen_2 in Hp2. rewrite fs_seen_3 in Hq2.
    match goal with
    | |- context [_handle_file_event self p2 ?ty ?w1] =>
        pose proof (handle_submits self p2 ty n2 content2 w1) as Hsub;
        destruct (_handle_file_event self p2 ty w1) as [[[]|e2] w2]
    end; simpl in *;
      (rewrite Hsub; [by rewrite <- app_assoc | exact Hp2 | world_norm; exact Hq2]).
Qed.

End FailedUploads.

Lemma transient_failure_submitted_once_witness :
  ∃ w' m,
    _handle_file_event (handler_of (refusing (ClientError "SlowDown")))
      "docs/a.txt" "created" (initial_world docs_hi []) = (Returns (), w')
    ∧ calls w' = [] ++ [PutObject (upload_request
                                     (handler_of (refusing (ClientError "SlowDown")))
                                     "docs/a.txt" (bytes "hi"))]
    ∧ length (puts (calls w')) = 0 + 1
    ∧ objects w' = ∅
    ∧ log w' = [] ++ [(INFO, MsgFileEvent "created" "a.txt" 2); (ERROR, m)]
    ∧ (m = MsgUploadError (ClientError "SlowDown")
       ∨ m = MsgUnexpectedUploadError "a.txt" (ClientError "SlowDown")).
Proof.
  apply (transient_failure_submitted_once
           (handler_of (refusing (ClientError "SlowDown")))
           "docs/a.txt" "created" (RegularFile (bytes "hi")) (bytes "hi")
           (ClientError "SlowDown") (initial_world docs_hi [])).
  - reflexivity.
  - reflexivity.
  - reflexivity.
  - reflexivity.
Defined.

Lemma permanent_failure_witness :
  ∃ w1,
    dispatch (handler_of (refusing (ClientError "AccessDenied")))
      (Created (file_at "docs/a.txt")) (initial_world docs_two []) = (Returns (), w1)
    ∧ calls w1 = [] ++ [PutObject (upload_request
                                     (handler_of (refusing (ClientError "AccessDenied")))
                                     "docs/a.txt" (bytes "hi"))]
    ∧ objects w1 = ∅
    ∧ log w1 = [] ++ [(INFO, MsgFileEvent "created" "a.txt" 2);
                      (ERROR, MsgAccessDenied "bucket")]
    ∧ calls (run_events (handler_of (refusing (ClientError "AccessDenied")))
               [Created (file_at "docs/a.txt"); Modified (file_at "docs/b.json")]
               (initial_world docs_two [])).2
      = [] ++ [PutObject (upload_request
                            (handler_of (refusing (ClientError "AccessDenied")))
                            "docs/a.txt" (bytes "hi"));
               PutObject (upload_request
                            (handler_of (refusing (ClientError "AccessDenied")))
                            "docs/b.json" (bytes "{}"))].
Proof.
  destruct (permanent_failure_logged_and_skipped
              (handler_of (refusing (ClientError "AccessDenied")))
              "docs/a.txt" (Created (file_at "docs/a.txt"))
              (RegularFile (bytes "hi")) (bytes "hi") "AccessDenied"
              (initial_world docs_two []))
    as (w1 & Hrun & Hcalls & Hobj & Hlog & _ & Hnext).
  - split; reflexivity.
  - reflexivity.
  - reflexivity.
  - reflexivity.
  - reflexivity.
  - exists w1. repeat (split; [assumption|]).
    apply (Hnext "docs/b.json" (Modified (file_at "docs/b.json"))
             (RegularFile (bytes "{}")) (bytes "{}")).
    + split; reflexivity.
    + reflexivity.
    + reflexivity.
Defined.

(** ** Bursts of events for one path *)

Section Bursts.
Variable self : S3FileHandler.

Lemma handle_present (p ty : string) (n : node) (content : list byte) (w : world) :
  fs_now w !! p = Some n →
  fs_now (advance w) !! p = Some (RegularFile content) →
  raises_only_Exceptions (client self) →
  ∃ w1, _handle_file_event self p ty w = (Returns (), w1)
        ∧ calls w1 = calls w ++ [PutObject (upload_request self p content)]
        ∧ fs_now w1 = fs_now (advance (advance w))
        ∧ fs_later w1 = fs_later (advance (advance w)).
Proof.
  intros Hp Hq Hs3.
  destruct (put_object_response (client self) (calls w) (upload_request self p content))
    as [e|] eqn:Hr.
  - destruct (upload_except_logs self p (Pathlib.name p) e (Hs3 _ _ _ Hr)) as [m Hm].
    eexists. split; [by eapply handle_refused|]. done.
  - eexists. split; [by eapply handle_accepted|]. done.
Qed.

Lemma file_seen_frame (k : nat) (p : string) (w w1 : world) :
  fs_now w1 = fs_now (advance (advance w)) →
  fs_later w1 = fs_later (advance (advance w)) →
  file_seen k w1 p = file_seen (k + 2) w p.
Proof.
  intros Hn Hl. unfold file_seen.
  rewrite (fs_seen_frame k _ _ Hn Hl), !fs_seen_advance.
  by replace (k + 2) with (S (S k)) by lia.
Qed.

Lemma file_seen_now (p : string) (w : world) (content : list byte) :
  file_seen 0 w p = Some content → fs_now w !! p = Some (RegularFile content).
Proof.
  unfold file_seen. rewrite fs_seen_now.
  destruct (fs_now w !! p) as [[c|sz]|]; by intros [= ->].
Qed.

Lemma file_seen_next (p : string) (w : world) (content : list byte) :
  file_seen 1 w p = Some content →
  fs_now (advance w) !! p = Some (RegularFile content).
Proof.
  unfold file_seen. rewrite fs_seen_1.
  destruct (fs_now (advance w) !! p) as [[c|sz]|]; by intros [= ->].
Qed.

(** C2, as the script has it.  A burst of create and modify events for
    one path, the file being there at every access, with a service that
    raises only [Exception]s: the handler returns from the burst having
    submitted one request per event, in the order of the events, each with
    the key of the path and the bytes the file held when that event opened
    it (the access [2 * i + 1] for the event [i]).  No event is dropped in
    favour of a later one. *)
Theorem every_event_uploaded (p : string) (evs : list fs_event) (w : world) :
  Forall (file_event_on p) evs →
  raises_only_Exceptions (client self) →
  (∀ k, k < 2 * length evs → is_Some (file_seen k w p)) →
  ∃ w',
    run_events self evs w = (Returns (), w')
    ∧ puts (calls w')
      = puts (calls w) ++
          map (fun i => upload_request self p (default [] (file_seen (2 * i + 1) w p)))
              (seq 0 (length evs)).
Proof.
  intros Hevs Hs3. revert w.
  induction Hevs as [|fe evs Hfe _ IH]; intros w Hfile.
  - exists w. simpl. by rewrite app_nil_r.
  - destruct (Hfile 0) as [c0 Hc0]; [simpl; lia|].
    destruct (Hfile 1) as [c1 Hc1]; [simpl; lia|].
    destruct (handle_present p (event_type_of fe) (RegularFile c0) c1 w
                (file_seen_now p w c0 Hc0) (file_seen_next p w c1 Hc1) Hs3)
      as (w1 & Hrun & Hcalls & Hnow & Hlater).
    destruct (IH w1) as (w' & Hrest & Hputs).
    { intros k Hk. rewrite (file_seen_frame k p w w1 Hnow Hlater).
      apply Hfile. simpl. lia. }
    exists w'. split.
    + simpl. unfold mbind, M_bind.
      by rewrite (dispatch_file_event self p fe Hfe), Hrun.
    + rewrite Hputs, Hcalls, puts_app. simpl. rewrite <- app_assoc. simpl.
      do 2 f_equal.
      * by rewrite Hc1.
      * rewrite <- seq_shift, map_map. apply map_ext. intros i.
        rewrite (file_seen_frame _ p w w1 Hnow Hlater).
        by replace (S i + (S i + 0) + 1) with (i + (i + 0) + 1 + 2) by lia.
Qed.

End Bursts.

Lemma every_event_uploaded_witness :
  ∃ w',
    run_events (handler_of accepting)
      [Created (file_at "docs/a.txt"); Modified (file_at "docs/a.txt");
       Modified (file_at "docs/a.txt")]
      (initial_world docs_hi [docs_hi; docs_hi_there]) = (Returns (), w')
    ∧ puts (calls w')
      = [] ++ map (fun i => upload_request (handler_of accepting) "docs/a.txt"
                     (default [] (file_seen (2 * i + 1)
                                    (initial_world docs_hi [docs_hi; docs_hi_there])
                                    "docs/a.txt")))
                  (seq 0 3).
Proof.
  apply (every_event_uploaded (handler_of accepting) "docs/a.txt"
           [Created (file_at "docs/a.txt"); Modified (file_at "docs/a.txt");
            Modified (file_at "docs/a.txt")]
           (initial_world docs_hi [docs_hi; docs_hi_there])).
  - repeat constructor.
  - intros history r e. discriminate.
  - intros k Hk. simpl in Hk.
    do 6 (destruct k as [|k]; [vm_compute; eauto|]). lia.
Defined.

(** C2, as the design document has it, fails.  [docs/a.txt] is created
    holding [hi] and at once rewritten to [hi there]; the two events reach
    the handler one after the other.  Two requests go out for the key
    [up/a.txt], the first with [hi], the second with [hi there]: the first
    event is not superseded. *)
Lemma burst_uploaded_twice :
  let w := initial_world docs_hi [docs_hi; docs_hi_there; docs_hi_there] in
  let w' := (run_events (handler_of accepting)
               [Created (file_at "docs/a.txt"); Modified (file_at "docs/a.txt")] w).2 in
  puts (calls w')
    = [ {| Bucket := "bucket"; Key := "up/a.txt"; Body := bytes "hi";
           ContentType := "text/plain" |};
        {| Bucket := "bucket"; Key := "up/a.txt"; Body := bytes "hi there";
           ContentType := "text/plain" |} ]
  ∧ length (puts (calls w')) ≠ 1.
Proof. vm_compute. split; [reflexivity|discriminate]. Qed.

(** ** The remote key *)

Section RemoteKey.
Variable self : S3FileHandler.

Lemma advance_static (w : world) : fs_later w = [] → advance w = w.
Proof. unfold advance. by intros ->. Qed.

(** The requests an event for [p] adds are uploads of [p]. *)
Lemma submitted_key (p ty : string) (w : world) (r : put_request) :
  PutObject r ∈ submitted_by (_handle_file_event self p ty) w →
  Key r = s3_key_of self p ∧ Bucket r = bucket_name self.
Proof.
  destruct (handle_submitted self p ty w) as [-> | [body ->]].
  - by intros ?%elem_of_nil.
  - by intros [= ->]%list_elem_of_singleton.
Qed.

(** Two events in a row for files that are there and do not change,
    with a service that accepts. *)
Lemma two_uploads_accepted (p1 p2 : string) (fe1 fe2 : fs_event)
    (c1 c2 : list byte) (w : world) :
  file_event_on p1 fe1 → file_event_on p2 fe2 →
  fs_later w = [] →
  fs_now w !! p1 = Some (RegularFile c1) →
  fs_now w !! p2 = Some (RegularFile c2) →
  (∀ history r, put_object_response (client self) history r = None) →
  ∃ w',
    run_events self [fe1; fe2] w = (Returns (), w')
    ∧ calls w' = calls w ++ [PutObject (upload_request self p1 c1);
                             PutObject (upload_request self p2 c2)]
    ∧ objects w'
      = <[(bucket_name self, s3_key_of self p2) :=
            {| obj_body := c2; obj_content_type := _get_content_type p2 |}]>
          (<[(bucket_name self, s3_key_of self p1) :=
               {| obj_body := c1; obj_content_type := _get_content_type p1 |}]>
             (objects w)).
Proof.
  intros Hfe1 Hfe2 Hst Hp1 Hp2 Hok.
  pose proof (handle_accepted self p1 (event_type_of fe1) (RegularFile c1) c1 w) as H1.
  rewrite (advance_static w Hst) in H1. specialize (H1 Hp1 Hp1 (Hok _ _)).
  simpl in H1.
  match type of H1 with _ = (_, ?w1) => set (w1' := w1) in * end.
  assert (fs_later w1' = []) as Hst1.
  { subst w1'. unfold after_stat. simpl. by rewrite !(advance_static w Hst). }
  assert (fs_now w1' = fs_now w) as Hnow1.
  { subst w1'. unfold after_stat. simpl. by rewrite !(advance_static w Hst). }
  pose proof (handle_accepted self p2 (event_type_of fe2) (RegularFile c2) c2 w1') as H2.
  rewrite (advance_static w1' Hst1), Hnow1 in H2. specialize (H2 Hp2 Hp2 (Hok _ _)).
  simpl in H2.
  eexists. split.
  - simpl. unfold mbind, M_bind, mret, M_ret.
    rewrite (dispatch_file_event self p1 fe1 Hfe1), H1.
    rewrite (dispatch_file_event self p2 fe2 Hfe2), H2. reflexivity.
  - subst w1'. simpl. by rewrite <- app_assoc.
Qed.

(** C5.  The key of an upload is the normalized prefix followed by the
    name of the path: every request that an event for [p] adds, of
    whatever kind and in whatever world, carries that key and the bucket of
    the handler, so two events for [p] address the same object; the
    prefix is the one given to the constructor, normalized once.  When the
    file does not change and the service accepts, two events for it send
    the same request twice and leave one object under that key, as the
    first one alone does. *)
Theorem remote_key_deterministic (p : string) :
  (∀ ty1 ty2 w1 w2 r1 r2,
      PutObject r1 ∈ submitted_by (_handle_file_event self p ty1) w1 →
      PutObject r2 ∈ submitted_by (_handle_file_event self p ty2) w2 →
      Key r1 = s3_prefix self +:+ Pathlib.name p
      ∧ Key r2 = Key r1 ∧ Bucket r2 = Bucket r1)
  ∧ (∀ s3 bucket configured w,
       ∃ h w', S3FileHandler__init__ s3 bucket configured w = (Returns h, w')
               ∧ s3_key_of h p = normalize_prefix configured +:+ Pathlib.name p)
  ∧ (∀ fe1 fe2 content w,
       file_event_on p fe1 → file_event_on p fe2 →
       fs_later w = [] →
       fs_now w !! p = Some (RegularFile content) →
       (∀ history r, put_object_response (client self) history r = None) →
       ∃ w1 w2,
         dispatch self fe1 w = (Returns (), w1)
         ∧ dispatch self fe2 w1 = (Returns (), w2)
         ∧ calls w2 = calls w ++ [PutObject (upload_request self p content);
                                  PutObject (upload_request self p content)]
         ∧ objects w1
           = <[(bucket_name self, s3_key_of self p) :=
                 {| obj_body := content; obj_content_type := _get_content_type p |}]>
               (objects w)
         ∧ objects w2 = objects w1).
Proof.
  split; [|split].
  - intros ty1 ty2 w1 w2 r1 r2 [K1 B1]%submitted_key [K2 B2]%submitted_key.
    by rewrite K1, K2, B1, B2.
  - intros s3 bucket configured w. by do 2 eexists.
  - intros fe1 fe2 content w Hfe1 Hfe2 Hst Hp Hok.
    destruct (two_uploads_accepted p p fe1 fe2 content content w
                Hfe1 Hfe2 Hst Hp Hp Hok) as (w2 & Hrun & Hcalls & Hobj).
    pose proof (handle_accepted self p (event_type_of fe1) (RegularFile content)
                  content w) as H1.
    rewrite (advance_static w Hst) in H1. specialize (H1 Hp Hp (Hok _ _)).
    simpl in H1, Hrun. unfold mbind, M_bind, mret, M_ret in Hrun.
    rewrite (dispatch_file_event self p fe1 Hfe1) in *.
    rewrite H1 in Hrun.
    eexists. exists w2. split; [exact H1|].
    split.
    { destruct (dispatch self fe2 _) as [[[]|e] w3]; by inversion Hrun. }
    split; [done|]. split; [done|].
    rewrite Hobj. simpl. apply insert_insert_eq.
Qed.

(** C9.  Two paths with the same final component get the same key and
    the same content type.  When both files are there, do not change, and
    the service accepts, an event for the first followed by an event for
    the second sends two requests with that one key, and the bucket then
    holds the bytes of the second file under it: the first upload is
    overwritten.  Files [n] in two directories are such paths. *)
Theorem same_name_same_key (p1 p2 : string) :
  Pathlib.name p1 = Pathlib.name p2 →
  s3_key_of self p1 = s3_key_of self p2
  ∧ _get_content_type p1 = _get_content_type p2
  ∧ (∀ fe1 fe2 c1 c2 w,
       file_event_on p1 fe1 → file_event_on p2 fe2 →
       fs_later w = [] →
       fs_now w !! p1 = Some (RegularFile c1) →
       fs_now w !! p2 = Some (RegularFile c2) →
       (∀ history r, put_object_response (client self) history r = None) →
       ∃ w',
         run_events self [fe1; fe2] w = (Returns (), w')
         ∧ calls w' = calls w ++ [PutObject (upload_request self p1 c1);
                                  PutObject (upload_request self p2 c2)]
         ∧ Key (upload_request self p1 c1) = Key (upload_request self p2 c2)
         ∧ objects w'
           = <[(bucket_name self, s3_key_of self p1) :=
                 {| obj_body := c2; obj_content_type := _get_content_type p2 |}]>
               (objects w))
  ∧ (∀ d1 d2 n,
       Pathlib.no_char Pathlib.is_sep n = true → Pathlib.keeps_part n = true →
       Pathlib.name (d1 +:+ "/" +:+ n) = Pathlib.name (d2 +:+ "/" +:+ n)
       ∧ s3_key_of self (d1 +:+ "/" +:+ n) = s3_prefix self +:+ n
       ∧ s3_key_of self (d2 +:+ "/" +:+ n) = s3_prefix self +:+ n).
Proof.
  intros Hname.
  assert (s3_key_of self p1 = s3_key_of self p2) as Hkey
    by (unfold s3_key_of; by rewrite Hname).
  split; [done|]. split.
  { unfold _get_content_type, Pathlib.suffix. by rewrite Hname. }
  split.
  - intros fe1 fe2 c1 c2 w Hfe1 Hfe2 Hst Hp1 Hp2 Hok.
    destruct (two_uploads_accepted p1 p2 fe1 fe2 c1 c2 w
                Hfe1 Hfe2 Hst Hp1 Hp2 Hok) as (w' & Hrun & Hcalls & Hobj).
    exists w'. split; [done|]. split; [done|]. split; [done|].
    rewrite Hobj, Hkey. apply insert_insert_eq.
  - intros d1 d2 n Hsep Hkeep. unfold s3_key_of.
    by rewrite !name_join.
Qed.

End RemoteKey.

Lemma remote_key_deterministic_witness :
  (∀ r1 r2,
      PutObject r1 ∈ submitted_by (_handle_file_event (handler_of accepting)
                                     "docs/a.txt" "created")
                                  (initial_world docs_hi []) →
      PutObject r2 ∈ submitted_by (_handle_file_event (handler_of accepting)
                                     "docs/a.txt" "modified")
                                  (initial_world docs_hi_there []) →
      Key r1 = "up/" +:+ "a.txt" ∧ Key r2 = Key r1 ∧ Bucket r2 = Bucket r1)
  ∧ (∃ w1 w2,
       dispatch (handler_of accepting) (Created (file_at "docs/a.txt"))
         (initial_world docs_hi []) = (Returns (), w1)
       ∧ dispatch (handler_of accepting) (Modified (file_at "docs/a.txt")) w1
         = (Returns (), w2)
       ∧ calls w2 = [] ++ [PutObject (upload_request (handler_of accepting)
                                        "docs/a.txt" (bytes "hi"));
                           PutObject (upload_request (handler_of accepting)
                                        "docs/a.txt" (bytes "hi"))]
       ∧ objects w1
         = <[("bucket", "up/a.txt") :=
               {| obj_body := bytes "hi"; obj_content_type := "text/plain" |}]> ∅
       ∧ objects w2 = objects w1).
Proof.
  pose proof (remote_key_deterministic (handler_of accepting) "docs/a.txt")
    as (Hkey & _ & Hsame).
  split.
  - intros r1 r2. apply Hkey.
  - apply (Hsame (Created (file_at "docs/a.txt")) (Modified (file_at "docs/a.txt"))
             (bytes "hi") (initial_world docs_hi [])).
    + split; reflexivity.
    + split; reflexivity.
    + reflexivity.
    + reflexivity.
    + reflexivity.
Defined.

Lemma same_name_same_key_witness :
  "docs/x/report.txt" ≠ "docs/y/report.txt"
  ∧ s3_key_of (handler_of accepting) "docs/x/report.txt"
    = s3_key_of (handler_of accepting) "docs/y/report.txt"
  ∧ ∃ w',
      run_events (handler_of accepting)
        [Created (file_at "docs/x/report.txt"); Created (file_at "docs/y/report.txt")]
        (initial_world docs_nested []) = (Returns (), w')
      ∧ objects w'
        = <[("bucket", "up/report.txt") :=
              {| obj_body := bytes "second"; obj_content_type := "text/plain" |}]> ∅.
Proof.
  split; [discriminate|].
  destruct (same_name_same_key (handler_of accepting)
              "docs/x/report.txt" "docs/y/report.txt") as (Hkey & _ & Hrun & _).
  - reflexivity.
  - split; [exact Hkey|].
    destruct (Hrun (Created (file_at "docs/x/report.txt"))
                (Created (file_at "docs/y/report.txt"))
                (bytes "first") (bytes "second") (initial_world docs_nested []))
      as (w' & Hw' & _ & _ & Hobj).
    + split; reflexivity.
    + split; reflexivity.
    + reflexivity.
    + reflexivity.
    + reflexivity.
    + reflexivity.
    + exists w'. split; [exact Hw'|exact Hobj].
Defined.

(** ** Start-up *)

Section Startup.
Variable aws : s3_client.

Lemma bind_step {A B} (m : M A) (k : A → M B) (w w1 : world) (a : A) :
  m w = (Returns a, w1) → (m ≫= k) w = k a w1.
Proof. unfold mbind, M_bind. by intros ->. Qed.

Lemma bind_abort {A B} (m : M A) (k : A → M B) (w w1 : world) (e : exn) :
  m w = (Raises e, w1) → (m ≫= k) w = (Raises e, w1).
Proof. unfold mbind, M_bind. by intros ->. Qed.

Lemma os_path_exists_eq (p : string) (w : world) :
  os_path_exists p w = (Returns (bool_decide (is_Some (fs_now w !! p))), advance w).
Proof. unfold os_path_exists, mbind, M_bind. by rewrite fs_access_eq. Qed.

Lemma os_path_isdir_eq (p : string) (w : world) :
  os_path_isdir p w
  = (Returns (match fs_now w !! p with Some (Directory _) => true | _ => false end),
     advance w).
Proof. unfold os_path_isdir, mbind, M_bind. by rewrite fs_access_eq. Qed.

(** C7.  With a watch path that does not exist when [main] looks for
    it, or is not a directory when [main] checks that, [main] ends in
    [sys.exit(1)]: the process exits with status 1 after one error record
    naming the path, no request was sent to S3, no watch was registered,
    the observer was not started, and no event of the session was
    handled. *)
Theorem invalid_watch_root_exits
    (script watch bucket : string) (rest : list string) (session : list fs_event)
    (w : world) :
  fs_seen 0 w !! watch = None ∨ (∀ sz, fs_seen 1 w !! watch ≠ Some (Directory sz)) →
  ∃ w' m,
    main aws (script :: watch :: bucket :: rest) session w = (Raises (SystemExit 1), w')
    ∧ exit_code (main aws (script :: watch :: bucket :: rest) session w).1 = 1
    ∧ log w' = log w ++ [(ERROR, m)]
    ∧ (m = MsgWatchPathMissing watch ∨ m = MsgWatchPathNotDir watch)
    ∧ calls w' = calls w ∧ objects w' = objects w
    ∧ watches w' = watches w ∧ observer_running w' = observer_running w.
Proof.
  intros Hbad. rewrite fs_seen_now, fs_seen_1 in Hbad.
  unfold main.
  erewrite bind_step by reflexivity.
  erewrite bind_step by apply os_path_exists_eq.
  autorewrite with world. cbn [fs_now set_stdout].
  destruct (fs_now w !! watch) as [n|] eqn:Hp.
  - destruct Hbad as [?|Hnd]; [done|].
    erewrite bind_step by reflexivity.
    erewrite bind_step by apply os_path_isdir_eq.
    autorewrite with world. cbn [fs_now set_stdout].
    assert (match fs_now (advance w) !! watch with
            | Some (Directory _) => true
            | _ => false
            end = false) as ->.
    { destruct (fs_now (advance w) !! watch) as [[c|sz]|]; try done.
      by destruct (Hnd sz). }
    erewrite bind_abort by reflexivity.
    do 2 eexists. split; [reflexivity|]. simpl. world_norm. eauto 10.
  - erewrite bind_abort by reflexivity.
    do 2 eexists. split; [reflexivity|]. simpl. world_norm. eauto 10.
Qed.

(** The start of [main] with a watch path that is a directory. *)
Lemma main_valid_root
    (script watch bucket : string) (rest : list string) (session : list fs_event)
    (w : world) (n : node) (sz : nat) :
  fs_now w !! watch = Some n →
  fs_now (advance w) !! watch = Some (Directory sz) →
  ∃ k : M unit,
    main aws (script :: watch :: bucket :: rest) session w
    = k (set_log (log w ++ [(INFO, MsgMonitoringFolder watch); (INFO, MsgBucket bucket);
                            (INFO, MsgPrefix (match rest with p :: _ => p | [] => "" end))])
           (set_stdout (stdout w ++ [OutBanner]) (advance (advance w))))
    ∧ k = try_except
            (s3 ← create_s3_client aws;
             ok ← validate_bucket s3 bucket;
             (if negb ok then sys_exit 1 else mret ());;
             event_handler ← S3FileHandler__init__ s3 bucket
                               (match rest with p :: _ => p | [] => "" end);
             observer_schedule event_handler watch true;;
             logger_info MsgStarting;;
             print (OutMonitoringStarted watch);;
             observer_start;;
             try_except
               (sleep_until_interrupt event_handler session)
               (fun e =>
                  match e with
                  | KeyboardInterrupt =>
                      Some (logger_info MsgStopping;;
                            observer_stop;;
                            logger_info MsgStopped)
                  | _ => None
                  end))
            (fun e =>
               match e with
               | NoCredentialsError =>
                   Some (logger_error MsgCredentialsRequired;; sys_exit 1)
               | _ => except_Exception
                        (fun e => logger_error (MsgUnexpected e);; sys_exit 1) e
               end).
Proof.
  intros Hp Hq. eexists. split; [|reflexivity].
  unfold main.
  erewrite bind_step by reflexivity.
  erewrite bind_step by apply os_path_exists_eq.
  autorewrite with world. cbn [fs_now set_stdout]. rewrite Hp.
  erewrite bind_step by reflexivity.
  erewrite bind_step by apply os_path_isdir_eq.
  autorewrite with world. cbn [fs_now set_stdout]. rewrite Hq.
  erewrite bind_step by reflexivity.
  erewrite bind_step by reflexivity.
  erewrite bind_step by reflexivity.
  erewrite bind_step by reflexivity.
  f_equal. world_eq.
Qed.

Lemma create_s3_client_no_buckets (w0 : world) :
  list_buckets_response aws = inr [] →
  create_s3_client aws w0
  = (Raises IndexError,
     set_log (log w0 ++ [(ERROR, MsgClientFailed IndexError)])
             (set_s3 (objects w0) (calls w0 ++ [ListBuckets]) w0)).
Proof.
  intros Hnone.
  unfold create_s3_client, try_except, mbind, M_bind, list_buckets.
  rewrite Hnone. simpl. world_eq.
Qed.

Lemma create_s3_client_calls (w0 : world) (first : string) (others : list string) :
  list_buckets_response aws = inr (first :: others) →
  calls (create_s3_client aws w0).2 = calls w0 ++ [ListBuckets; HeadBucket first].
Proof.
  intros Hlist.
  unfold create_s3_client, try_except, mbind, M_bind, mret, M_ret,
    list_buckets, head_bucket.
  rewrite Hlist. simpl.
  destruct (head_bucket_response aws first) as [e|]; simpl.
  - destruct e; simpl; world_norm; by rewrite <- ?app_assoc.
  - world_norm. by rewrite <- ?app_assoc.
Qed.

Lemma create_s3_client_probe_refused
    (w0 : world) (first : string) (others : list string) (e : exn) :
  list_buckets_response aws = inr (first :: others) →
  head_bucket_response aws first = Some e →
  is_Exception e = true →
  ∃ w1, create_s3_client aws w0 = (Raises e, w1)
        ∧ calls w1 = calls w0 ++ [ListBuckets; HeadBucket first]
        ∧ watches w1 = watches w0
        ∧ observer_running w1 = observer_running w0.
Proof.
  intros Hlist Hhead He.
  unfold create_s3_client, try_except, mbind, M_bind, mret, M_ret,
    list_buckets, head_bucket.
  rewrite Hlist. simpl. rewrite Hhead.
  destruct e; try done; simpl;
    (eexists; split; [reflexivity|]; simpl; world_norm; by rewrite <- ?app_assoc).
Qed.

(** C10.  The watch path being a directory: when the account owns no
    bucket, [create_s3_client] fails on the first element of an empty
    list, and [main] ends in [sys.exit(1)] having sent [list_buckets] and
    nothing else, so the bucket named on the command line was never asked
    about, whatever S3 would have answered for it; no watch is registered.
    When the account owns buckets, the one probed is the first of the
    list: its refusal alone ends [main] in [sys.exit(1)] the same way, and
    [create_s3_client] sends [list_buckets] and one [head_bucket] for that
    first bucket, having never been given the name from the command
    line. *)
Theorem client_probe_uses_first_owned_bucket
    (script watch bucket : string) (rest : list string) (session : list fs_event)
    (w : world) (n : node) (sz : nat) :
  fs_seen 0 w !! watch = Some n →
  fs_seen 1 w !! watch = Some (Directory sz) →
  (list_buckets_response aws = inr [] →
   ∃ w',
     main aws (script :: watch :: bucket :: rest) session w = (Raises (SystemExit 1), w')
     ∧ exit_code (main aws (script :: watch :: bucket :: rest) session w).1 = 1
     ∧ calls w' = calls w ++ [ListBuckets]
     ∧ errors (log w') = errors (log w) ++ [MsgClientFailed IndexError;
                                            MsgUnexpected IndexError]
     ∧ watches w' = watches w ∧ observer_running w' = observer_running w)
  ∧ (∀ first others e,
       list_buckets_response aws = inr (first :: others) →
       head_bucket_response aws first = Some e →
       is_Exception e = true →
       ∃ w',
         main aws (script :: watch :: bucket :: rest) session w
         = (Raises (SystemExit 1), w')
         ∧ calls w' = calls w ++ [ListBuckets; HeadBucket first]
         ∧ watches w' = watches w ∧ observer_running w' = observer_running w)
  ∧ (∀ first others w0,
       list_buckets_response aws = inr (first :: others) →
       calls (create_s3_client aws w0).2 = calls w0 ++ [ListBuckets; HeadBucket first]).
Proof.
  intros Hp Hq. rewrite fs_seen_now in Hp. rewrite fs_seen_1 in Hq.
  destruct (main_valid_root script watch bucket rest session w n sz Hp Hq)
    as (k & Hmain & Hk).
  split; [|split].
  - intros Hnone.
    assert (∃ w', main aws (script :: watch :: bucket :: rest) session w
                  = (Raises (SystemExit 1), w')
                  ∧ calls w' = calls w ++ [ListBuckets]
                  ∧ errors (log w') = errors (log w) ++ [MsgClientFailed IndexError;
                                                         MsgUnexpected IndexError]
                  ∧ watches w' = watches w
                  ∧ observer_running w' = observer_running w)
      as (w' & Hrun & Hrest).
    { rewrite Hmain, Hk. unfold try_except at 1.
      erewrite bind_abort by (by apply create_s3_client_no_buckets).
      simpl. eexists. split; [reflexivity|]. simpl. world_norm.
      rewrite !errors_app. simpl. rewrite app_nil_r, <- app_assoc. done. }
    exists w'. rewrite Hrun. done.
  - intros first others e Hlist Hhead He.
    rewrite Hmain, Hk. unfold try_except at 1.
    match goal with
    | |- context [(create_s3_client aws ≫= _) ?w0] =>
        destruct (create_s3_client_probe_refused w0 first others e Hlist Hhead He)
          as (w1 & Hrun & Hcalls & Hw & Hr)
    end.
    erewrite bind_abort by exact Hrun.
    destruct e; try done; simpl;
      (eexists; split; [reflexivity|]; simpl;
       by rewrite Hcalls, Hw, Hr; world_norm).
  - intros first others w0 Hlist. by eapply create_s3_client_calls.
Qed.

End Startup.

Lemma invalid_watch_root_witness :
  (∃ w' m,
     main accepting ["s3_file_monitor.py"; "missing"; "bucket"]
       [Created (file_at "notes.txt")] (initial_world only_a_file [])
     = (Raises (SystemExit 1), w')
     ∧ exit_code (main accepting ["s3_file_monitor.py"; "missing"; "bucket"]
                    [Created (file_at "notes.txt")] (initial_world only_a_file [])).1 = 1
     ∧ log w' = [] ++ [(ERROR, m)]
     ∧ (m = MsgWatchPathMissing "missing" ∨ m = MsgWatchPathNotDir "missing")
     ∧ calls w' = [] ∧ objects w' = ∅ ∧ watches w' = [] ∧ observer_running w' = false)
  ∧ (∃ w' m,
       main accepting ["s3_file_monitor.py"; "notes.txt"; "bucket"; "up/"]
         [Created (file_at "notes.txt")] (initial_world only_a_file [])
       = (Raises (SystemExit 1), w')
       ∧ exit_code (main accepting ["s3_file_monitor.py"; "notes.txt"; "bucket"; "up/"]
                      [Created (file_at "notes.txt")] (initial_world only_a_file [])).1 = 1
       ∧ log w' = [] ++ [(ERROR, m)]
       ∧ (m = MsgWatchPathMissing "notes.txt" ∨ m = MsgWatchPathNotDir "notes.txt")
       ∧ calls w' = [] ∧ objects w' = ∅ ∧ watches w' = [] ∧ observer_running w' = false).
Proof.
  split.
  - apply (invalid_watch_root_exits accepting "s3_file_monitor.py" "missing" "bucket" []
             [Created (file_at "notes.txt")] (initial_world only_a_file [])).
    left. reflexivity.
  - apply (invalid_watch_root_exits accepting "s3_file_monitor.py" "notes.txt" "bucket"
             ["up/"] [Created (file_at "notes.txt")] (initial_world only_a_file [])).
    right. intros sz. vm_compute. discriminate.
Defined.

Lemma client_probe_witness :
  head_bucket_response no_buckets_of_its_own "bucket" = None
  ∧ ∃ w',
      main no_buckets_of_its_own ["s3_file_monitor.py"; "docs"; "bucket"; "up/"]
        [Created (file_at "docs/a.txt")] (initial_world docs_hi [])
      = (Raises (SystemExit 1), w')
      ∧ exit_code (main no_buckets_of_its_own
                     ["s3_file_monitor.py"; "docs"; "bucket"; "up/"]
                     [Created (file_at "docs/a.txt")] (initial_world docs_hi [])).1 = 1
      ∧ calls w' = [] ++ [ListBuckets]
      ∧ errors (log w') = [] ++ [MsgClientFailed IndexError; MsgUnexpected IndexError]
      ∧ watches w' = [] ∧ observer_running w' = false.
Proof.
  split; [reflexivity|].
  apply (proj1 (client_probe_uses_first_owned_bucket no_buckets_of_its_own
                  "s3_file_monitor.py" "docs" "bucket" ["up/"]
                  [Created (file_at "docs/a.txt")] (initial_world docs_hi [])
                  (Directory 4096) 4096 eq_refl eq_refl)).
  reflexivity.
Defined.

(** The scenario of the design document that the script does meet: the
    watch root and the bucket are there, [docs/a.txt] is created, Ctrl+C
    follows.  One request, and the process ends with status 0. *)
Example main_clean_run :
  let '(r, w') := main accepting ["s3_file_monitor.py"; "docs"; "bucket"; "up/"]
                    [Created (file_at "docs/a.txt")] (initial_world docs_hi []) in
  exit_code r = 0
  ∧ calls w' = [ListBuckets; HeadBucket "bucket"; HeadBucket "bucket";
                PutObject {| Bucket := "bucket"; Key := "up/a.txt"; Body := bytes "hi";
                             ContentType := "text/plain" |}]
  ∧ errors (log w') = []
  ∧ observer_running w' = false.
Proof. vm_compute. repeat split. Qed.

Example normalize_prefix_examples :
  normalize_prefix "" = "" ∧ normalize_prefix "up" = "up/"
  ∧ normalize_prefix "up//" = "up/" ∧ normalize_prefix "/" = "/".
Proof. repeat split. Qed.

(** * Further properties of the script *)

(** ** What an event can change *)

Section Frame.
Variable self : S3FileHandler.

Lemma split_sep_no_sep (p : string) :
  Forall (fun s => Pathlib.no_char Pathlib.is_sep s = true) (Pathlib.split_sep p).
Proof.
  induction p as [|c r IH]; simpl; [by repeat constructor|].
  destruct (Pathlib.is_sep c) eqn:Hc; [by constructor|].
  destruct (Pathlib.split_sep r) as [|h t]; [by repeat constructor; simpl; rewrite Hc|].
  apply Forall_cons in IH as [Hh Ht]. constructor; [|done].
  simpl. by rewrite Hc, Hh.
Qed.

Lemma last_Forall {A} (P : A → Prop) (l : list A) (d : A) :
  P d → Forall P l → P (List.last l d).
Proof.
  intros Hd. induction 1 as [|x l Hx Hl IH]; simpl; [done|].
  by destruct l.
Qed.

(** The name of a path holds no separator. *)
Lemma name_no_sep (p : string) :
  Pathlib.no_char Pathlib.is_sep (Pathlib.name p) = true.
Proof.
  unfold Pathlib.name, Pathlib.parts. apply last_Forall; [done|].
  apply Forall_forall. intros s Hs. apply list_elem_of_In in Hs.
  apply List.filter_In in Hs as [Hs _].
  pose proof (split_sep_no_sep p) as Hall.
  rewrite Forall_forall in Hall. apply Hall. by apply list_elem_of_In.
Qed.

Lemma upload_is_handler_upload (p : string) (body : list byte) :
  handler_upload self (PutObject (upload_request self p body)).
Proof.
  exists (upload_request self p body), (Pathlib.name p).
  repeat split. apply name_no_sep.
Qed.

(** The world an event leaves, in each of the ways it can go: the file is
    gone at [stat]; it cannot be opened; the request is refused; the request
    is accepted. *)
Lemma handle_world (p ty : string) (w : world) :
  let w' := (_handle_file_event self p ty w).2 in
  (∃ m, w' = set_log (log w ++ [m]) (advance w))
  ∨ (∃ n m, w' = set_log (log (after_stat p ty n w) ++ [m]) (after_stat p ty n w))
  ∨ (∃ n body l,
       w' = set_log (log (after_stat p ty n w) ++ l)
              (set_s3 (objects w) (calls w ++ [PutObject (upload_request self p body)])
                      (after_stat p ty n w)))
  ∨ (∃ n body l,
       w' = set_log (log (after_stat p ty n w) ++ l)
              (set_s3 (<[(bucket_name self, s3_key_of self p) :=
                          {| obj_body := body;
                             obj_content_type := _get_content_type p |}]> (objects w))
                      (calls w ++ [PutObject (upload_request self p body)])
                      (after_stat p ty n w))).
Proof.
  simpl.
  destruct (fs_now w !! p) as [n|] eqn:Hp.
  2:{ left. rewrite (handle_vanished_before_stat self p ty w Hp). by eexists. }
  right.
  destruct (fs_now (advance w) !! p) as [[content|sz]|] eqn:Hq.
  3:{ left. rewrite (handle_vanished_before_open self p ty n w Hp Hq). by do 2 eexists. }
  2:{ left. rewrite (handle_directory self p ty n sz w Hp Hq). by do 2 eexists. }
  right.
  destruct (put_object_response (client self) (calls w) (upload_request self p content))
    as [e|] eqn:Hr.
  - left. exists n, content.
    destruct (is_Exception e) eqn:He.
    + destruct (upload_except_logs self p (Pathlib.name p) e He) as [m Hm].
      rewrite (handle_refused self p ty n content e m w Hp Hq Hr Hm). by eexists.
    + exists []. run_handler. rewrite stat_size_eq, Hp. unfold logger_info at 1.
      rewrite open_rb_eq. simpl. rewrite Hq. simpl.
      unfold put_object. simpl. world_norm.
      fold (s3_key_of self p). fold (upload_request self p content).
      rewrite Hr. destruct e; try done; simpl; by rewrite app_nil_r.
  - right. exists n, content.
    rewrite (handle_accepted self p ty n content w Hp Hq Hr). by eexists.
Qed.

Lemma extends_refl (w : world) : extends w w.
Proof. by repeat split. Qed.

Lemma extends_trans (w1 w2 w3 : world) :
  extends w1 w2 → extends w2 w3 → extends w1 w3.
Proof.
  intros (L1 & C1 & O1 & S1 & W1 & R1) (L2 & C2 & O2 & S2 & W2 & R2).
  repeat split; try (by etrans); try congruence.
  intros k Hk. by apply O2, O1.
Qed.

Lemma handle_extends (p ty : string) (w : world) :
  extends w (_handle_file_event self p ty w).2.
Proof.
  destruct (handle_world p ty w) as [[m ->]|[(n & m & ->)|[(n & b & l & ->)|(n & b & l & ->)]]];
    unfold extends; simpl; world_norm;
    (split; [by repeat apply prefix_app_r|]);
    (split; [by repeat apply prefix_app_r|]); (split; [|done]); intros k Hk; try done.
  destruct (decide ((bucket_name self, s3_key_of self p) = k)) as [<-|Hne].
  - rewrite lookup_insert_eq. by eexists.
  - by rewrite lookup_insert_ne.
Qed.

Lemma dispatch_extends (fe : fs_event) (w : world) : extends w (dispatch self fe w).2.
Proof.
  destruct fe as [ev|ev|ev|ev]; simpl; try apply extends_refl;
    unfold on_created, on_modified; destruct (is_directory ev); simpl;
    try apply extends_refl; apply handle_extends.
Qed.

(** The requests one event adds. *)
Lemma dispatch_calls (fe : fs_event) (w : world) :
  ∃ c, calls (dispatch self fe w).2 = calls w ++ c
       ∧ Forall (handler_upload self) c
       ∧ length c ≤ (if is_file_event fe then 1 else 0).
Proof.
  assert (∀ p ty, ∃ c, calls (_handle_file_event self p ty w).2 = calls w ++ c
                       ∧ Forall (handler_upload self) c ∧ length c ≤ 1) as Hh.
  { intros p ty.
    destruct (handle_world p ty w)
      as [[m ->]|[(n & m & ->)|[(n & b & l & ->)|(n & b & l & ->)]]];
      simpl; world_norm.
    - exists []. rewrite app_nil_r. split; [done|]. split; [constructor|simpl; lia].
    - exists []. rewrite app_nil_r. split; [done|]. split; [constructor|simpl; lia].
    - eexists. split; [done|]. split; [|simpl; lia].
      repeat constructor. apply upload_is_handler_upload.
    - eexists. split; [done|]. split; [|simpl; lia].
      repeat constructor. apply upload_is_handler_upload. }
  assert (∀ k, ∃ c : list s3_call, calls w = calls w ++ c
                 ∧ Forall (handler_upload self) c ∧ length c ≤ k) as Hnone.
  { intros k. exists []. rewrite app_nil_r.
    split; [done|]. split; [constructor|simpl; lia]. }
  destruct fe as [ev|ev|ev|ev]; simpl; try apply Hnone;
    unfold on_created, on_modified; destruct (is_directory ev); simpl;
    try apply Hnone; apply Hh.
Qed.

Lemma run_events_step (fe : fs_event) (rest : list fs_event) (w : world) :
  (run_events self (fe :: rest) w).2 = (dispatch self fe w).2
  ∨ (run_events self (fe :: rest) w).2 = (run_events self rest (dispatch self fe w).2).2.
Proof.
  simpl. unfold mbind, M_bind.
  destruct (dispatch self fe w) as [[[]|e] w1]; simpl; eauto.
Qed.

(** X1.  Whatever the events and whatever S3 answers, handling them only
    adds: the log and the calls of before are a prefix of those after,
    every key that held an object still holds one, and nothing is printed,
    no watch is added or removed and the observer is left as it was. *)
Theorem run_events_only_adds (evs : list fs_event) (w : world) :
  extends w (run_events self evs w).2.
Proof.
  revert w. induction evs as [|fe rest IH]; intros w; [apply extends_refl|].
  destruct (run_events_step fe rest w) as [-> | ->].
  - apply dispatch_extends.
  - eapply extends_trans; [apply dispatch_extends|apply IH].
Qed.

(** X2.  Every request the handler sends while handling events is a
    [put_object] into its own bucket, under its prefix followed by a name
    that holds no [/]; and there are at most as many of them as there are
    create and modify events for files among the events. *)
Theorem run_events_requests (evs : list fs_event) (w : world) :
  Forall (handler_upload self) (submitted_by (run_events self evs) w)
  ∧ length (submitted_by (run_events self evs) w)
    ≤ length (List.filter is_file_event evs).
Proof.
  unfold submitted_by.
  assert (∃ c, calls (run_events self evs w).2 = calls w ++ c
               ∧ Forall (handler_upload self) c
               ∧ length c ≤ length (List.filter is_file_event evs)) as (c & -> & Hc & Hlen).
  { revert w. induction evs as [|fe rest IH]; intros w.
    - exists []. simpl. rewrite app_nil_r. split; [done|]. split; [constructor|lia].
    - destruct (dispatch_calls fe w) as (c1 & Hc1 & HP1 & Hl1).
      assert (length c1 ≤ length (List.filter is_file_event (fe :: rest))) as Hl1'.
      { simpl. destruct (is_file_event fe); simpl; lia. }
      destruct (run_events_step fe rest w) as [-> | ->].
      + by exists c1.
      + destruct (IH (dispatch self fe w).2) as (c2 & -> & HP2 & Hl2).
        exists (c1 ++ c2). rewrite Hc1, <- app_assoc. split; [done|].
        split; [by apply Forall_app|].
        rewrite length_app. simpl. destruct (is_file_event fe); simpl in *; lia. }
  by rewrite drop_app_length.
Qed.

End Frame.

(** ** Uploads that go through *)

Section AcceptedUploads.
Variable self : S3FileHandler.

(** X3.  A create or modify event for a file that is there, with a
    service that accepts the request: the handler returns, the bucket
    holds under the key of the path the bytes read when the file was opened
    and the content type of the path, objects under other keys are as
    before, and the log gains three records and no error: the event with
    the size seen by [stat], the success, and the URL
    [https://<bucket>.s3.amazonaws.com/<key>]. *)
Theorem accepted_upload_is_stored
    (p : string) (fe : fs_event) (n : node) (content : list byte) (w : world) :
  file_event_on p fe →
  fs_seen 0 w !! p = Some n →
  fs_seen 1 w !! p = Some (RegularFile content) →
  put_object_response (client self) (calls w) (upload_request self p content) = None →
  ∃ w',
    dispatch self fe w = (Returns (), w')
    ∧ objects w' !! (bucket_name self, s3_prefix self +:+ Pathlib.name p)
      = Some {| obj_body := content; obj_content_type := _get_content_type p |}
    ∧ (∀ k, k ≠ (bucket_name self, s3_prefix self +:+ Pathlib.name p) →
            objects w' !! k = objects w !! k)
    ∧ calls w' = calls w ++ [PutObject (upload_request self p content)]
    ∧ log w' = log w ++
        [(INFO, MsgFileEvent (event_type_of fe) (Pathlib.name p) (st_size_of n));
         (INFO, MsgUploaded (Pathlib.name p));
         (INFO, MsgUrl ("https://" +:+ bucket_name self +:+ ".s3.amazonaws.com/"
                          +:+ s3_prefix self +:+ Pathlib.name p))]
    ∧ errors (log w') = errors (log w).
Proof.
  intros Hfe Hp Hq Hr. rewrite fs_seen_now in Hp. rewrite fs_seen_1 in Hq.
  rewrite (dispatch_file_event self p fe Hfe).
  eexists. split; [by apply (handle_accepted self p _ n content w)|].
  simpl. world_norm. fold (s3_key_of self p).
  split; [apply lookup_insert_eq|].
  split; [intros k Hk; by rewrite lookup_insert_ne|].
  split; [done|]. rewrite <- app_assoc. split; [done|].
  rewrite errors_app. simpl. by rewrite app_nil_r.
Qed.

(** X4.  A refused upload is not remembered.  Two events for a file that
    is there: the service refuses the first request with an [Exception]
    and accepts the second.  The handler returns from both, has sent two
    requests, and the bucket holds the bytes read for the second; the log
    has one error record more than before. *)
Theorem later_event_uploads_again
    (p : string) (fe1 fe2 : fs_event) (n1 n2 : node) (c1 c2 : list byte) (e : exn)
    (w : world) :
  file_event_on p fe1 → file_event_on p fe2 →
  fs_seen 0 w !! p = Some n1 → fs_seen 1 w !! p = Some (RegularFile c1) →
  fs_seen 2 w !! p = Some n2 → fs_seen 3 w !! p = Some (RegularFile c2) →
  put_object_response (client self) (calls w) (upload_request self p c1) = Some e →
  is_Exception e = true →
  put_object_response (client self)
    (calls w ++ [PutObject (upload_request self p c1)]) (upload_request self p c2) = None →
  ∃ w' m,
    run_events self [fe1; fe2] w = (Returns (), w')
    ∧ calls w' = calls w ++ [PutObject (upload_request self p c1);
                             PutObject (upload_request self p c2)]
    ∧ objects w' !! (bucket_name self, s3_key_of self p)
      = Some {| obj_body := c2; obj_content_type := _get_content_type p |}
    ∧ errors (log w') = errors (log w) ++ [m].
Proof.
  intros Hfe1 Hfe2 Hp1 Hq1 Hp2 Hq2 Hr1 He Hr2.
  rewrite fs_seen_now in Hp1. rewrite fs_seen_1 in Hq1.
  rewrite fs_seen_2 in Hp2. rewrite fs_seen_3 in Hq2.
  destruct (upload_except_logs self p (Pathlib.name p) e He) as [m Hm].
  pose proof (handle_refused self p (event_type_of fe1) n1 c1 e m w Hp1 Hq1 Hr1 Hm) as H1.
  simpl in H1.
  match type of H1 with _ = (_, ?w1) => set (w1' := w1) in * end.
  assert (calls w1' = calls w ++ [PutObject (upload_request self p c1)]) as Hc1
    by done.
  assert (fs_now w1' !! p = Some n2) as Hp2'.
  { subst w1'. simpl. by world_norm. }
  assert (fs_now (advance w1') !! p = Some (RegularFile c2)) as Hq2'.
  { subst w1'. world_norm. exact Hq2. }
  rewrite <- Hc1 in Hr2.
  pose proof (handle_accepted self p (event_type_of fe2) n2 c2 w1' Hp2' Hq2' Hr2) as H2.
  simpl in H2.
  eexists. exists m. split.
  - simpl. unfold mbind, M_bind, mret, M_ret.
    rewrite (dispatch_file_event self p fe1 Hfe1), H1.
    rewrite (dispatch_file_event self p fe2 Hfe2), H2. reflexivity.
  - subst w1'. simpl. world_norm.
    split; [by rewrite <- app_assoc|].
    split; [apply lookup_insert_eq|].
    rewrite !errors_app. simpl. by rewrite !app_nil_r.
Qed.

(** X5.  An event that is not flagged as a directory event, for a path
    that is a directory when the handler opens it: the handler returns,
    sends nothing and stores nothing; after the event record it logs one
    error, the one of the last [except] clause of [_upload_to_s3]. *)
Theorem directory_at_open_is_logged
    (p : string) (fe : fs_event) (n : node) (sz : nat) (w : world) :
  file_event_on p fe →
  fs_seen 0 w !! p = Some n →
  fs_seen 1 w !! p = Some (Directory sz) →
  ∃ w',
    dispatch self fe w = (Returns (), w')
    ∧ calls w' = calls w ∧ objects w' = objects w
    ∧ log w' = log w ++
        [(INFO, MsgFileEvent (event_type_of fe) (Pathlib.name p) (st_size_of n));
         (ERROR, MsgUnexpectedUploadError (Pathlib.name p) IsADirectoryError)].
Proof.
  intros Hfe Hp Hq. rewrite fs_seen_now in Hp. rewrite fs_seen_1 in Hq.
  rewrite (dispatch_file_event self p fe Hfe).
  eexists. split; [by eapply handle_directory|].
  simpl. world_norm. by rewrite <- app_assoc.
Qed.

End AcceptedUploads.

Lemma accepted_upload_is_stored_witness :
  ∃ w',
    dispatch (handler_of accepting) (Created (file_at "docs/a.txt"))
      (initial_world docs_hi [docs_hi_there]) = (Returns (), w')
    ∧ objects w' !! ("bucket", "up/" +:+ "a.txt")
      = Some {| obj_body := bytes "hi there"; obj_content_type := "text/plain" |}
    ∧ (∀ k, k ≠ ("bucket", "up/" +:+ "a.txt") → objects w' !! k = (∅ : gmap _ s3_object) !! k)
    ∧ calls w' = [] ++ [PutObject (upload_request (handler_of accepting) "docs/a.txt"
                                     (bytes "hi there"))]
    ∧ log w' = [] ++
        [(INFO, MsgFileEvent "created" "a.txt" 2);
         (INFO, MsgUploaded "a.txt");
         (INFO, MsgUrl ("https://" +:+ "bucket" +:+ ".s3.amazonaws.com/"
                          +:+ "up/" +:+ "a.txt"))]
    ∧ errors (log w') = [].
Proof.
  apply (accepted_upload_is_stored (handler_of accepting) "docs/a.txt"
           (Created (file_at "docs/a.txt")) (RegularFile (bytes "hi")) (bytes "hi there")
           (initial_world docs_hi [docs_hi_there])).
  - split; reflexivity.
  - reflexivity.
  - reflexivity.
  - reflexivity.
Defined.

Lemma later_event_uploads_again_witness :
  ∃ w' m,
    run_events (handler_of (refusing_once (ClientError "SlowDown")))
      [Created (file_at "docs/a.txt"); Modified (file_at "docs/a.txt")]
      (initial_world docs_hi []) = (Returns (), w')
    ∧ calls w' = [] ++ [PutObject (upload_request
                                     (handler_of (refusing_once (ClientError "SlowDown")))
                                     "docs/a.txt" (bytes "hi"));
                        PutObject (upload_request
                                     (handler_of (refusing_once (ClientError "SlowDown")))
                                     "docs/a.txt" (bytes "hi"))]
    ∧ objects w' !! ("bucket", "up/a.txt")
      = Some {| obj_body := bytes "hi"; obj_content_type := "text/plain" |}
    ∧ errors (log w') = [] ++ [m].
Proof.
  apply (later_event_uploads_again (handler_of (refusing_once (ClientError "SlowDown")))
           "docs/a.txt" (Created (file_at "docs/a.txt")) (Modified (file_at "docs/a.txt"))
           (RegularFile (bytes "hi")) (RegularFile (bytes "hi")) (bytes "hi") (bytes "hi")
           (ClientError "SlowDown") (initial_world docs_hi []));
    first [reflexivity | split; reflexivity].
Defined.

Lemma directory_at_open_witness :
  ∃ w',
    dispatch (handler_of accepting) (Modified (file_at "docs/sub"))
      (initial_world docs_dotfiles []) = (Returns (), w')
    ∧ calls w' = [] ∧ objects w' = ∅
    ∧ log w' = [] ++
        [(INFO, MsgFileEvent "modified" "sub" 64);
         (ERROR, MsgUnexpectedUploadError "sub" IsADirectoryError)].
Proof.
  apply (directory_at_open_is_logged (handler_of accepting) "docs/sub"
           (Modified (file_at "docs/sub")) (Directory 64) 64
           (initial_world docs_dotfiles []));
    first [reflexivity | split; reflexivity].
Defined.

(** ** Names without an extension, and the prefix *)

Section NamesAndPrefix.
Import Pathlib.

Lemma rfind_dot_head (c : ascii) (x : string) :
  no_char is_dot x = true → rfind_dot (String c x) = Some 0 ∨ rfind_dot (String c x) = None.
Proof.
  intros Hx. simpl. rewrite (rfind_dot_none x Hx). destruct (is_dot c); eauto.
Qed.

(** X6.  A file whose name holds no dot after its first character, as
    [Makefile], [.gitignore] or [.json], alone or below a directory, has no
    extension for the script and gets [application/octet-stream], even when
    the name spells an extension of the table. *)
Theorem no_extension_is_octet_stream (p : string) (c : ascii) (x : string) :
  (p = String c x ∨ ∃ dir, p = dir +:+ "/" +:+ String c x) →
  x ≠ "" →
  is_sep c = false →
  no_char is_sep x = true → no_char is_dot x = true →
  suffix p = "" ∧ _get_content_type p = "application/octet-stream".
Proof.
  intros Hp Hx Hc Hsep Hdot.
  assert (name p = String c x) as Hn.
  { assert (no_char is_sep (String c x) = true) by (simpl; by rewrite Hc, Hsep).
    assert (keeps_part (String c x) = true).
    { apply keeps_part_two. destruct x; [done|simpl; lia]. }
    destruct Hp as [->|[dir ->]]; [by apply name_plain|by apply name_join]. }
  assert (suffix p = "") as Hs.
  { unfold suffix. rewrite Hn.
    by destruct (rfind_dot_head c x Hdot) as [-> | ->]. }
  split; [done|]. unfold _get_content_type. by rewrite Hs.
Qed.

Lemma rstrip_sep_snoc (s : string) : rstrip_sep (s +:+ "/") = rstrip_sep s.
Proof.
  induction s as [|c r IH]; [done|].
  rewrite str_app_cons. simpl. by rewrite IH.
Qed.

Lemma rstrip_sep_idem (s : string) : rstrip_sep (rstrip_sep s) = rstrip_sep s.
Proof.
  induction s as [|c r IH]; simpl; [done|].
  destruct (rstrip_sep r) as [|c' r'] eqn:Hr.
  - destruct (is_sep c) eqn:Hc; simpl; [done|by rewrite Hc].
  - simpl. simpl in IH. by rewrite IH.
Qed.

Lemma str_snoc_not_empty (r : string) : String.eqb (r +:+ "/") "" = false.
Proof. by destruct r. Qed.

(** X7.  The prefix kept by the handler.  An empty prefix stays empty.
    A prefix that is not empty becomes what is left of it once the slashes
    at its end are taken off, followed by one slash; so it does not matter
    how many slashes the argument ends with, and normalizing twice changes
    nothing.  A prefix made of slashes only becomes [/]. *)
Theorem normalize_prefix_shape (s : string) :
  normalize_prefix "" = ""
  ∧ (s ≠ "" →
     ∃ r, normalize_prefix s = r +:+ "/"
          ∧ rstrip_sep r = r
          ∧ r = rstrip_sep s
          ∧ normalize_prefix (s +:+ "/") = normalize_prefix s
          ∧ normalize_prefix (normalize_prefix s) = normalize_prefix s
          ∧ (no_char (fun c => negb (is_sep c)) s = true → normalize_prefix s = "/")).
Proof.
  split; [done|]. intros Hs. exists (rstrip_sep s).
  assert (normalize_prefix s = rstrip_sep s +:+ "/") as Hn.
  { unfold normalize_prefix. by destruct s. }
  split; [done|]. split; [apply rstrip_sep_idem|]. split; [done|]. split; [|split].
  - unfold normalize_prefix at 1. rewrite str_snoc_not_empty, rstrip_sep_snoc. by rewrite Hn.
  - rewrite Hn. unfold normalize_prefix. rewrite str_snoc_not_empty.
    by rewrite rstrip_sep_snoc, rstrip_sep_idem.
  - intros Hall. rewrite Hn.
    assert (rstrip_sep s = "") as ->; [|done].
    clear Hs Hn. induction s as [|c r IH]; simpl; [done|].
    simpl in Hall. apply andb_true_iff in Hall as [Hc Hr].
    rewrite (IH Hr). apply negb_true_iff, negb_false_iff in Hc. by rewrite Hc.
Qed.

End NamesAndPrefix.

Lemma no_extension_witness :
  (Pathlib.suffix "docs/.json" = ""
   ∧ _get_content_type "docs/.json" = "application/octet-stream")
  ∧ (Pathlib.suffix "Makefile" = ""
     ∧ _get_content_type "Makefile" = "application/octet-stream").
Proof.
  split.
  - apply (no_extension_is_octet_stream "docs/.json" "."%char "json");
      [right; by exists "docs"|done|reflexivity|reflexivity|reflexivity].
  - apply (no_extension_is_octet_stream "Makefile" "M"%char "akefile");
      [by left|done|reflexivity|reflexivity|reflexivity].
Defined.

Lemma normalize_prefix_witness :
  (∃ r, normalize_prefix "up//" = r +:+ "/"
        ∧ Pathlib.rstrip_sep r = r
        ∧ r = Pathlib.rstrip_sep "up//"
        ∧ normalize_prefix ("up//" +:+ "/") = normalize_prefix "up//"
        ∧ normalize_prefix (normalize_prefix "up//") = normalize_prefix "up//"
        ∧ (Pathlib.no_char (fun c => negb (Pathlib.is_sep c)) "up//" = true →
           normalize_prefix "up//" = "/"))
  ∧ normalize_prefix "//" = "/".
Proof.
  split.
  - apply (proj2 (normalize_prefix_shape "up//")). discriminate.
  - destruct (proj2 (normalize_prefix_shape "//")) as (r & _ & _ & _ & _ & _ & Hall);
      [discriminate|].
    apply Hall. reflexivity.
Defined.

(** ** The client and the bucket at start-up *)

Section ClientAndBucket.
Variable aws : s3_client.

Lemma create_s3_client_ok (w : world) (first : string) (others : list string) :
  list_buckets_response aws = inr (first :: others) →
  head_bucket_response aws first = None →
  create_s3_client aws w
  = (Returns aws,
     set_log (log w ++ [(INFO, MsgConnectionOk)])
             (set_s3 (objects w) (calls w ++ [ListBuckets; HeadBucket first]) w)).
Proof.
  intros Hlist Hhead.
  unfold create_s3_client, try_except, mbind, M_bind, mret, M_ret,
    list_buckets, head_bucket.
  rewrite Hlist. simpl. rewrite Hhead. world_eq.
Qed.

Lemma create_s3_client_list_fails (w : world) (e : exn) :
  list_buckets_response aws = inl e →
  (create_s3_client aws w).1 = Raises e
  ∧ calls (create_s3_client aws w).2 = calls w ++ [ListBuckets].
Proof.
  intros Hlist.
  unfold create_s3_client, try_except, mbind, M_bind, list_buckets.
  rewrite Hlist. simpl. by destruct e.
Qed.

(** X8.  [create_s3_client] returns, and then returns the client, exactly
    when the account lists at least one bucket and [head_bucket] on the
    first one succeeds; it then has logged one record and no error.  In
    every other case it raises: the exception [list_buckets] raised, the
    one [head_bucket] raised for that first bucket, or [IndexError] when the
    list is empty; an exception is never replaced by another one. *)
Theorem create_s3_client_outcome (w : world) :
  ((∃ s3, (create_s3_client aws w).1 = Returns s3)
   ↔ ∃ first others, list_buckets_response aws = inr (first :: others)
                     ∧ head_bucket_response aws first = None)
  ∧ (∀ s3, (create_s3_client aws w).1 = Returns s3 →
           s3 = aws
           ∧ log (create_s3_client aws w).2 = log w ++ [(INFO, MsgConnectionOk)])
  ∧ (∀ e, (create_s3_client aws w).1 = Raises e →
          list_buckets_response aws = inl e
          ∨ (list_buckets_response aws = inr [] ∧ e = IndexError)
          ∨ ∃ first others, list_buckets_response aws = inr (first :: others)
                            ∧ head_bucket_response aws first = Some e).
Proof.
  destruct (list_buckets_response aws) as [e0|[|first others]] eqn:Hlist.
  - destruct (create_s3_client_list_fails w e0 Hlist) as [Hr _].
    rewrite Hr. split; [|split].
    + split; [by intros [s3 ?]|by intros (? & ? & ? & _)].
    + by intros s3.
    + intros e [= <-]. by left.
  - rewrite (create_s3_client_no_buckets aws w Hlist). simpl. split; [|split].
    + split; [by intros [s3 ?]|by intros (? & ? & ? & _)].
    + by intros s3.
    + intros e [= <-]. right. by left.
  - destruct (head_bucket_response aws first) as [e1|] eqn:Hhead.
    + assert ((create_s3_client aws w).1 = Raises e1) as Hr.
      { unfold create_s3_client, try_except, mbind, M_bind, mret, M_ret,
          list_buckets, head_bucket.
        rewrite Hlist. simpl. rewrite Hhead. by destruct e1. }
      rewrite Hr. split; [|split].
      * split; [by intros [s3 ?]|].
        intros (f & o & [= <- <-] & Hnone). congruence.
      * by intros s3.
      * intros e [= <-]. right. right. by eauto.
    + rewrite (create_s3_client_ok w first others Hlist Hhead). simpl.
      split; [|split].
      * split; [by eauto|by eauto].
      * by intros s3 [= <-].
      * by intros e.
Qed.

Lemma validate_bucket_eq (s3 : s3_client) (bucket : string) (w : world) :
  validate_bucket s3 bucket w
  = let w1 := set_s3 (objects w) (calls w ++ [HeadBucket bucket]) w in
    match head_bucket_response s3 bucket with
    | None => (Returns true, set_log (log w ++ [(INFO, MsgBucketOk bucket)]) w1)
    | Some (ClientError code) =>
        (Returns false,
         set_log (log w ++ [(ERROR, if String.eqb code "NoSuchBucket"
                                    then MsgNoSuchBucket bucket
                                    else if String.eqb code "AccessDenied"
                                    then MsgAccessDenied bucket
                                    else MsgBucketError (ClientError code))]) w1)
    | Some e => (Raises e, w1)
    end.
Proof.
  unfold validate_bucket, try_except, mbind, M_bind, mret, M_ret, head_bucket.
  destruct (head_bucket_response s3 bucket) as [e|]; simpl.
  - destruct e; try done. simpl.
    destruct (String.eqb code "NoSuchBucket"); [world_eq|].
    destruct (String.eqb code "AccessDenied"); world_eq.
  - world_eq.
Qed.

(** X9.  [validate_bucket] asks S3 once, [head_bucket] for the bucket it
    is given, and changes nothing in S3.  It returns [True] exactly when
    that call succeeds, after one info record; it returns [False] exactly
    when the call raises a [ClientError], after one error record; any other
    exception is raised to the caller and nothing is logged. *)
Theorem validate_bucket_outcome (s3 : s3_client) (bucket : string) (w : world) :
  let r := (validate_bucket s3 bucket w).1 in
  let w' := (validate_bucket s3 bucket w).2 in
  calls w' = calls w ++ [HeadBucket bucket]
  ∧ objects w' = objects w
  ∧ (r = Returns true ↔ head_bucket_response s3 bucket = None)
  ∧ (r = Returns true → log w' = log w ++ [(INFO, MsgBucketOk bucket)])
  ∧ (r = Returns false ↔ ∃ code, head_bucket_response s3 bucket = Some (ClientError code))
  ∧ (r = Returns false → ∃ m, log w' = log w ++ [(ERROR, m)])
  ∧ (∀ e, r = Raises e →
          head_bucket_response s3 bucket = Some e
          ∧ (∀ code, e ≠ ClientError code) ∧ log w' = log w).
Proof.
  simpl. rewrite validate_bucket_eq. simpl.
  destruct (head_bucket_response s3 bucket) as [e|]; [destruct e|]; simpl;
    (split; [done|]); (split; [done|]);
    (split; [by split|]); (split; [done|]);
    (split; [first [by split; eauto | split; [done|by intros [c ?]]]|]);
    (split; [first [done | by eauto]|]);
    first [done | intros e' [= <-]; split; [done|split; [by intros c|done]]].
Qed.

End ClientAndBucket.

Lemma create_s3_client_outcome_witness :
  (∃ s3, (create_s3_client accepting (initial_world docs_hi [])).1 = Returns s3)
  ∧ (list_buckets_response without_credentials = inl NoCredentialsError
     ∨ (list_buckets_response without_credentials = inr [] ∧ NoCredentialsError = IndexError)
     ∨ ∃ first others,
         list_buckets_response without_credentials = inr (first :: others)
         ∧ head_bucket_response without_credentials first = Some NoCredentialsError).
Proof.
  split.
  - apply (proj1 (create_s3_client_outcome accepting (initial_world docs_hi []))).
    exists "bucket", []. split; reflexivity.
  - apply (proj2 (proj2 (create_s3_client_outcome without_credentials
                           (initial_world docs_hi [])))).
    reflexivity.
Defined.

Lemma validate_bucket_outcome_witness :
  (∃ code, head_bucket_response only_bucket "elsewhere" = Some (ClientError code))
  ∧ (∃ m, log (validate_bucket only_bucket "elsewhere" (initial_world docs_hi [])).2
          = [] ++ [(ERROR, m)])
  ∧ log (validate_bucket only_bucket "bucket" (initial_world docs_hi [])).2
    = [] ++ [(INFO, MsgBucketOk "bucket")].
Proof.
  pose proof (validate_bucket_outcome only_bucket "elsewhere" (initial_world docs_hi []))
    as (_ & _ & _ & _ & Hfalse & Hlog & _).
  pose proof (validate_bucket_outcome only_bucket "bucket" (initial_world docs_hi []))
    as (_ & _ & _ & Hok & _).
  split; [|split].
  - apply Hfalse. reflexivity.
  - apply Hlog. reflexivity.
  - apply Hok. reflexivity.
Defined.

(** ** [main], from the arguments to the exit status *)

Section MainRuns.
Variable aws : s3_client.

(** X10.  With fewer than two arguments after the script name, [main]
    prints the banner and the usage and ends in [sys.exit(1)]; it has not
    looked at the file system, written a log record or called S3. *)
Theorem main_usage (argv : list string) (session : list fs_event) (w : world) :
  length argv < 3 →
  main aws argv session w
  = (Raises (SystemExit 1), set_stdout (stdout w ++ [OutBanner; OutUsage]) w)
  ∧ exit_code (main aws argv session w).1 = 1.
Proof.
  intros Hlen.
  assert (main aws argv session w
          = (Raises (SystemExit 1), set_stdout (stdout w ++ [OutBanner; OutUsage]) w)) as Hrun.
  { destruct argv as [|a [|b [|c rest]]]; simpl in Hlen; try lia;
      unfold main, mbind, M_bind; simpl; world_eq. }
  by rewrite Hrun.
Qed.

Lemma validate_bucket_ok (bucket : string) (w : world) :
  head_bucket_response aws bucket = None →
  validate_bucket aws bucket w
  = (Returns true,
     set_log (log w ++ [(INFO, MsgBucketOk bucket)])
             (set_s3 (objects w) (calls w ++ [HeadBucket bucket]) w)).
Proof. intros Hb. rewrite validate_bucket_eq. simpl. by rewrite Hb. Qed.

(** X11.  The watch path is a directory and the client is created, but
    [head_bucket] for the bucket of the command line raises an [Exception]:
    [main] ends in [sys.exit(1)] with one more error record, whether
    [validate_bucket] returned [False] or let the exception through.  S3 was
    asked three things and no more, no watch is registered and the observer
    is not started. *)
Theorem main_bucket_unavailable
    (script watch bucket : string) (rest : list string) (session : list fs_event)
    (w : world) (n : node) (sz : nat) (first : string) (others : list string) (e : exn) :
  fs_seen 0 w !! watch = Some n →
  fs_seen 1 w !! watch = Some (Directory sz) →
  list_buckets_response aws = inr (first :: others) →
  head_bucket_response aws first = None →
  head_bucket_response aws bucket = Some e →
  is_Exception e = true →
  ∃ w' m,
    main aws (script :: watch :: bucket :: rest) session w = (Raises (SystemExit 1), w')
    ∧ calls w' = calls w ++ [ListBuckets; HeadBucket first; HeadBucket bucket]
    ∧ errors (log w') = errors (log w) ++ [m]
    ∧ objects w' = objects w
    ∧ watches w' = watches w ∧ observer_running w' = observer_running w.
Proof.
  intros Hp Hq Hlist Hfirst Hb He.
  rewrite fs_seen_now in Hp. rewrite fs_seen_1 in Hq.
  destruct (main_valid_root aws script watch bucket rest session w n sz Hp Hq)
    as (k & Hmain & Hk).
  rewrite Hmain, Hk. unfold try_except at 1.
  erewrite bind_step by (by eapply create_s3_client_ok).
  unfold mbind at 1. unfold M_bind at 1.
  rewrite validate_bucket_eq. simpl. rewrite Hb.
  destruct e; try done; simpl;
    (do 2 eexists; split; [reflexivity|]; simpl; world_norm;
     rewrite !errors_app; simpl; rewrite ?app_nil_r, <- ?app_assoc; done).
Qed.

(** X12.  The watch path is a directory and [list_buckets] raises an
    [Exception]: [main] ends in [sys.exit(1)] after that one call, with no
    watch registered.  For [NoCredentialsError] the log gains six error
    records, the five of [create_s3_client] and the one of [main]; for any
    other exception two, naming it. *)
Theorem main_client_unavailable
    (script watch bucket : string) (rest : list string) (session : list fs_event)
    (w : world) (n : node) (sz : nat) (e : exn) :
  fs_seen 0 w !! watch = Some n →
  fs_seen 1 w !! watch = Some (Directory sz) →
  list_buckets_response aws = inl e →
  is_Exception e = true →
  ∃ w',
    main aws (script :: watch :: bucket :: rest) session w = (Raises (SystemExit 1), w')
    ∧ calls w' = calls w ++ [ListBuckets]
    ∧ errors (log w')
      = errors (log w) ++
          match e with
          | NoCredentialsError =>
              [MsgNoCredentials; MsgCredentialsHint 0; MsgCredentialsHint 1;
               MsgCredentialsHint 2; MsgCredentialsHint 3; MsgCredentialsRequired]
          | _ => [MsgClientFailed e; MsgUnexpected e]
          end
    ∧ watches w' = watches w ∧ observer_running w' = observer_running w.
Proof.
  intros Hp Hq Hlist He.
  rewrite fs_seen_now in Hp. rewrite fs_seen_1 in Hq.
  destruct (main_valid_root aws script watch bucket rest session w n sz Hp Hq)
    as (k & Hmain & Hk).
  rewrite Hmain, Hk. unfold try_except at 1. unfold mbind at 1. unfold M_bind at 1.
  unfold create_s3_client, try_except, mbind, M_bind, list_buckets.
  rewrite Hlist. simpl.
  destruct e; try done; simpl;
    (eexists; split; [reflexivity|]; simpl; world_norm;
     rewrite !errors_app; simpl; rewrite ?app_nil_r, <- ?app_assoc; done).
Qed.

End MainRuns.

Section CleanRun.
Variable aws : s3_client.

(** X13.  A clean run.  The watch path is a directory, the probe of the
    first bucket and [head_bucket] for the bucket of the command line both
    succeed, and the service raises only [Exception]s.  [main] then asks S3
    those three things, registers one recursive watch on the watch path for
    a handler of that bucket with the normalized prefix argument, and starts
    the observer, all without an error record; the events of the session are
    handled by that handler from there, on the file system as it is after
    the two checks of the watch path; at Ctrl+C [main] logs two records,
    stops the observer and returns, so the exit status is 0. *)
Theorem main_clean_session
    (script watch bucket : string) (rest : list string) (session : list fs_event)
    (w : world) (n : node) (sz : nat) (first : string) (others : list string) :
  fs_seen 0 w !! watch = Some n →
  fs_seen 1 w !! watch = Some (Directory sz) →
  list_buckets_response aws = inr (first :: others) →
  head_bucket_response aws first = None →
  head_bucket_response aws bucket = None →
  raises_only_Exceptions aws →
  ∃ w1 w2 w3,
    calls w1 = calls w ++ [ListBuckets; HeadBucket first; HeadBucket bucket]
    ∧ objects w1 = objects w
    ∧ errors (log w1) = errors (log w)
    ∧ watches w1 = watches w ++ [{| watch_handler := handler_of_arguments aws bucket rest;
                                    watch_path := watch; recursive := true |}]
    ∧ observer_running w1 = true
    ∧ (∀ k, fs_seen k w1 = fs_seen (k + 2) w)
    ∧ run_events (handler_of_arguments aws bucket rest) session w1 = (Returns (), w2)
    ∧ main aws (script :: watch :: bucket :: rest) session w = (Returns (), w3)
    ∧ exit_code (main aws (script :: watch :: bucket :: rest) session w).1 = 0
    ∧ calls w3 = calls w2 ∧ objects w3 = objects w2
    ∧ log w3 = log w2 ++ [(INFO, MsgStopping); (INFO, MsgStopped)]
    ∧ watches w3 = watches w2 ∧ observer_running w3 = false.
Proof.
  intros Hp Hq Hlist Hfirst Hb Hs3.
  rewrite fs_seen_now in Hp. rewrite fs_seen_1 in Hq.
  set (h := handler_of_arguments aws bucket rest).
  set (w1 := set_observer
               (watches w ++ [{| watch_handler := h; watch_path := watch;
                                 recursive := true |}]) true
               (set_stdout (stdout w ++ [OutBanner; OutMonitoringStarted watch])
                  (set_log (log w ++ [(INFO, MsgMonitoringFolder watch);
                                      (INFO, MsgBucket bucket);
                                      (INFO, MsgPrefix (prefix_argument rest));
                                      (INFO, MsgConnectionOk);
                                      (INFO, MsgBucketOk bucket);
                                      (INFO, MsgHandlerInit bucket
                                               (normalize_prefix (prefix_argument rest)));
                                      (INFO, MsgStarting)])
                     (set_s3 (objects w)
                        (calls w ++ [ListBuckets; HeadBucket first; HeadBucket bucket])
                        (advance (advance w)))))).
  destruct (run_events_returns h session w1 Hs3) as [w2 Hrun].
  assert (main aws (script :: watch :: bucket :: rest) session w
          = (Returns (),
             set_log (log w2 ++ [(INFO, MsgStopping); (INFO, MsgStopped)])
                     (set_observer (watches w2) false w2))) as Hmain.
  { destruct (main_valid_root aws script watch bucket rest session w n sz Hp Hq)
      as (k & Hmain & Hk).
    rewrite Hmain, Hk. unfold try_except at 1.
    erewrite bind_step by (by eapply create_s3_client_ok).
    world_norm.
    erewrite bind_step by (by apply validate_bucket_ok).
    world_norm.
    erewrite bind_step by reflexivity.
    erewrite bind_step by reflexivity.
    world_norm.
    erewrite bind_step by reflexivity.
    erewrite bind_step by reflexivity.
    world_norm.
    erewrite bind_step by reflexivity.
    erewrite bind_step by reflexivity.
    world_norm.
    unfold try_except, sleep_until_interrupt.
    match goal with
    | |- context [(run_events _ session ≫= _) ?w'] =>
        assert (w' = w1) as -> by (subst w1; world_norm; by rewrite <- ?app_assoc)
    end.
    erewrite bind_step by exact Hrun.
    unfold mbind, M_bind, raise, observer_stop. world_norm.
    by rewrite <- ?app_assoc. }
  exists w1, w2. eexists. rewrite Hmain.
  split; [done|]. split; [done|].
  split; [subst w1; simpl; rewrite errors_app; simpl; by rewrite app_nil_r|].
  split; [done|]. split; [done|].
  split.
  { intros k. subst w1. unfold fs_seen. simpl.
    change (snapshot k (fs_now (advance (advance w))) (fs_later (advance (advance w))))
      with (fs_seen k (advance (advance w))).
    rewrite !fs_seen_advance. by replace (k + 2) with (S (S k)) by lia. }
  split; [exact Hrun|]. split; [reflexivity|].
  simpl. by repeat split.
Qed.

End CleanRun.

Lemma main_usage_witness :
  main accepting ["s3_file_monitor.py"; "docs"] [Created (file_at "docs/a.txt")]
    (initial_world docs_hi [])
  = (Raises (SystemExit 1),
     set_stdout ([] ++ [OutBanner; OutUsage]) (initial_world docs_hi []))
  ∧ exit_code (main accepting ["s3_file_monitor.py"; "docs"]
                 [Created (file_at "docs/a.txt")] (initial_world docs_hi [])).1 = 1.
Proof.
  apply (main_usage accepting ["s3_file_monitor.py"; "docs"]
           [Created (file_at "docs/a.txt")] (initial_world docs_hi [])).
  simpl. lia.
Defined.

Lemma main_bucket_unavailable_witness :
  ∃ w' m,
    main only_bucket ["s3_file_monitor.py"; "docs"; "elsewhere"]
      [Created (file_at "docs/a.txt")] (initial_world docs_hi [])
    = (Raises (SystemExit 1), w')
    ∧ calls w' = [] ++ [ListBuckets; HeadBucket "bucket"; HeadBucket "elsewhere"]
    ∧ errors (log w') = [] ++ [m]
    ∧ objects w' = ∅
    ∧ watches w' = [] ∧ observer_running w' = false.
Proof.
  apply (main_bucket_unavailable only_bucket "s3_file_monitor.py" "docs" "elsewhere" []
           [Created (file_at "docs/a.txt")] (initial_world docs_hi [])
           (Directory 4096) 4096 "bucket" [] (ClientError "NoSuchBucket"));
    reflexivity.
Defined.

Lemma main_client_unavailable_witness :
  ∃ w',
    main without_credentials ["s3_file_monitor.py"; "docs"; "bucket"]
      [Created (file_at "docs/a.txt")] (initial_world docs_hi [])
    = (Raises (SystemExit 1), w')
    ∧ calls w' = [] ++ [ListBuckets]
    ∧ errors (log w')
      = [] ++ [MsgNoCredentials; MsgCredentialsHint 0; MsgCredentialsHint 1;
               MsgCredentialsHint 2; MsgCredentialsHint 3; MsgCredentialsRequired]
    ∧ watches w' = [] ∧ observer_running w' = false.
Proof.
  apply (main_client_unavailable without_credentials "s3_file_monitor.py" "docs" "bucket"
           [] [Created (file_at "docs/a.txt")] (initial_world docs_hi [])
           (Directory 4096) 4096 NoCredentialsError);
    reflexivity.
Defined.

Lemma main_clean_session_witness :
  ∃ w1 w2 w3,
    calls w1 = [] ++ [ListBuckets; HeadBucket "bucket"; HeadBucket "bucket"]
    ∧ objects w1 = ∅
    ∧ errors (log w1) = []
    ∧ watches w1 = [] ++ [{| watch_handler := handler_of_arguments accepting "bucket" ["up"];
                             watch_path := "docs"; recursive := true |}]
    ∧ observer_running w1 = true
    ∧ (∀ k, fs_seen k w1 = fs_seen (k + 2) (initial_world docs_hi []))
    ∧ run_events (handler_of_arguments accepting "bucket" ["up"])
        [Created (file_at "docs/a.txt")] w1 = (Returns (), w2)
    ∧ main accepting ["s3_file_monitor.py"; "docs"; "bucket"; "up"]
        [Created (file_at "docs/a.txt")] (initial_world docs_hi []) = (Returns (), w3)
    ∧ exit_code (main accepting ["s3_file_monitor.py"; "docs"; "bucket"; "up"]
                   [Created (file_at "docs/a.txt")] (initial_world docs_hi [])).1 = 0
    ∧ calls w3 = calls w2 ∧ objects w3 = objects w2
    ∧ log w3 = log w2 ++ [(INFO, MsgStopping); (INFO, MsgStopped)]
    ∧ watches w3 = watches w2 ∧ observer_running w3 = false.
Proof.
  apply (main_clean_session accepting "s3_file_monitor.py" "docs" "bucket" ["up"]
           [Created (file_at "docs/a.txt")] (initial_world docs_hi [])
           (Directory 4096) 4096 "bucket" []);
    first [reflexivity | intros history r e; discriminate].
Defined.

(** ** Keys of different files, and the entries of the table *)

Section KeysAndTable.
Variable self : S3FileHandler.
Import Pathlib.

Lemma str_app_cancel (s a b : string) : s +:+ a = s +:+ b → a = b.
Proof.
  induction s as [|c r IH]; [done|].
  rewrite !str_app_cons. intros [= H]. by apply IH.
Qed.

(** X14.  Two paths get the same key exactly when their names are equal.
    When the names differ, both files are there and do not change, and the
    service accepts, an event for each leaves both objects in the bucket,
    each under its own key with its own bytes. *)
Theorem distinct_names_do_not_collide (p1 p2 : string) :
  (s3_key_of self p1 = s3_key_of self p2 ↔ name p1 = name p2)
  ∧ (name p1 ≠ name p2 →
     ∀ fe1 fe2 c1 c2 w,
       file_event_on p1 fe1 → file_event_on p2 fe2 →
       fs_later w = [] →
       fs_now w !! p1 = Some (RegularFile c1) →
       fs_now w !! p2 = Some (RegularFile c2) →
       (∀ history r, put_object_response (client self) history r = None) →
       ∃ w',
         run_events self [fe1; fe2] w = (Returns (), w')
         ∧ objects w' !! (bucket_name self, s3_key_of self p1)
           = Some {| obj_body := c1; obj_content_type := _get_content_type p1 |}
         ∧ objects w' !! (bucket_name self, s3_key_of self p2)
           = Some {| obj_body := c2; obj_content_type := _get_content_type p2 |}).
Proof.
  assert (s3_key_of self p1 = s3_key_of self p2 ↔ name p1 = name p2) as Hiff.
  { unfold s3_key_of. split; [apply str_app_cancel|by intros ->]. }
  split; [done|].
  intros Hne fe1 fe2 c1 c2 w Hfe1 Hfe2 Hst Hp1 Hp2 Hok.
  destruct (two_uploads_accepted self p1 p2 fe1 fe2 c1 c2 w Hfe1 Hfe2 Hst Hp1 Hp2 Hok)
    as (w' & Hrun & _ & Hobj).
  exists w'. split; [done|]. rewrite Hobj. split.
  - rewrite lookup_insert_ne; [apply lookup_insert_eq|].
    intros [= Hk]. apply Hne. by apply Hiff.
  - apply lookup_insert_eq.
Qed.

(** What makes an entry of the table usable: its key is a dot followed
    by lowercase characters without dot or separator. *)
Lemma content_types_keys_plain :
  Forall (fun entry =>
            ∃ x, entry.1 = "." +:+ x ∧ x ≠ "" ∧ lower x = x
                 ∧ no_char is_dot x = true ∧ no_char is_sep x = true)
         content_types.
Proof.
  unfold content_types.
  repeat (constructor; [eexists; split; [reflexivity|]; by repeat split|]).
  constructor.
Qed.

(** X15.  No entry of the table is dead: for every pair of an extension
    and a type in [content_types], a file whose name is a stem (not made of
    dots) followed by that extension, alone or below a directory, gets that
    type. *)
Theorem every_table_entry_applies (ext m stem p : string) :
  (ext, m) ∈ content_types →
  (p = stem +:+ ext ∨ ∃ dir, p = dir +:+ "/" +:+ stem +:+ ext) →
  only_dots stem = false →
  no_char is_sep stem = true →
  suffix p = ext ∧ _get_content_type p = m.
Proof.
  intros Hin Hp Hdots Hsep.
  pose proof content_types_keys_plain as Hall.
  rewrite Forall_forall in Hall.
  destruct (Hall _ Hin) as (x & Hext & Hx & Hlow & Hdot & Hsepx).
  simpl in Hext. subst ext.
  assert (stem ≠ "") as Hs by (by intros ->).
  assert (suffix p = "." +:+ x) as Hsuf by (by apply (suffix_stem_ext p stem x)).
  split; [done|].
  unfold _get_content_type. rewrite Hsuf, lower_dot, Hlow.
  by apply dict_get_in; [apply content_types_keys_NoDup|].
Qed.

End KeysAndTable.

Lemma distinct_names_witness :
  ∃ w',
    run_events (handler_of accepting)
      [Created (file_at "docs/a.txt"); Created (file_at "docs/b.json")]
      (initial_world docs_two []) = (Returns (), w')
    ∧ objects w' !! ("bucket", "up/a.txt")
      = Some {| obj_body := bytes "hi"; obj_content_type := "text/plain" |}
    ∧ objects w' !! ("bucket", "up/b.json")
      = Some {| obj_body := bytes "{}"; obj_content_type := "application/json" |}.
Proof.
  apply (proj2 (distinct_names_do_not_collide (handler_of accepting)
                  "docs/a.txt" "docs/b.json"));
    first [discriminate | reflexivity | split; reflexivity].
Defined.

Lemma every_table_entry_witness :
  Pathlib.suffix "backup/site.tar.gz" = ".gz"
  ∧ _get_content_type "backup/site.tar.gz" = "application/gzip".
Proof.
  apply (every_table_entry_applies ".gz" "application/gzip" "site.tar"
           "backup/site.tar.gz").
  - apply (bool_decide_unpack _). vm_compute. exact I.
  - right. by exists "backup".
  - reflexivity.
  - reflexivity.
Defined.

(** ** Transient failures: the retries of the client *)

Section ClientRetries.




(** An answer that is not retried ends the call at once. *)
Lemma send_not_retried (answer : nat → store_answer) (r : put_request) (made rem : nat) :
  retried (answer made) = false →
  send answer r made (S rem) = ([Submit r (answer made)], raised_for (answer made)).
Proof. intros H. simpl. by rewrite H. Qed.






End ClientRetries.


(** The design document's first scenario of failure, run: the store
    answers [SlowDown] to everything; the file is created; the store has
    received five submissions for the one call of the script.  A store that
    throttles twice and then accepts receives three, and the object is
    stored; a store that denies access receives one. *)
Example retries_counted :
  let run (store : s3_store) :=
    (_handle_file_event (handler_of (boto3_client store)) "docs/a.txt" "created"
       (initial_world docs_hi [])).2 in
  length (store_received (answering (HttpError 503 "SlowDown"))
            (run (answering (HttpError 503 "SlowDown")))) = 5
  ∧ length (puts (calls (run (answering (HttpError 503 "SlowDown"))))) = 1
  ∧ length (store_received (answering_first 2 (HttpError 400 "Throttling"))
              (run (answering_first 2 (HttpError 400 "Throttling")))) = 3
  ∧ is_Some (objects (run (answering_first 2 (HttpError 400 "Throttling")))
               !! ("bucket", "up/a.txt"))
  ∧ length (store_received (answering (HttpError 403 "AccessDenied"))
              (run (answering (HttpError 403 "AccessDenied")))) = 1.
Proof. vm_compute. repeat split; eauto. Qed.
